(** * cantina::Logger — hierarchical logger with streaming capture buffers

    Shallow embedding of [include/cantina/logger.h] and [src/logger.cpp].

    Logger objects live in a store (the list [loggers] of a [World]); a
    [LoggerPointer] is an address into that store, so a parent that is
    reconfigured after a child was created is seen by the child, exactly
    as through the C++ [std::shared_ptr].  Everything a logger writes to
    (std::clog, std::cerr, the log files, syslog, the CustomLogger
    callback) is a field of the [World].

    The build modelled is the POSIX one: neither [_WIN32] nor
    [__ANDROID_API__] nor [ANDROID] is defined. *)

From Stdlib Require Import ZArith NArith String Ascii DecimalString Lia.
From stdpp Require Import base list strings gmap.

Open Scope string_scope.

(** ** Enumerations *)

Module LogLevel.

Inductive t := Critical | Error | Warning | Info | Debug.

(** Underlying value of the [enum class] enumerators. *)
Definition to_Z (l : t) : Z :=
  match l with
  | Critical => 0
  | Error => 1
  | Warning => 2
  | Info => 3
  | Debug => 4
  end.

(** The built-in comparison operators of a scoped enumeration compare the
    underlying values. *)
Definition gtb (a b : t) : bool := (to_Z b <? to_Z a)%Z.
Definition geb (a b : t) : bool := (to_Z b <=? to_Z a)%Z.

#[global] Instance eq_dec : EqDecision t.
Proof. solve_decision. Defined.

Definition all : list t := [Critical; Error; Warning; Info; Debug].

End LogLevel.

Module LogFacility.

Inductive t := None | Console | Syslog | File | AndroidLog.

#[global] Instance eq_dec : EqDecision t.
Proof. solve_decision. Defined.

(** [a == b] *)
Definition eqb (a b : t) : bool :=
  match a, b with
  | None, None | Console, Console | Syslog, Syslog
  | File, File | AndroidLog, AndroidLog => true
  | _, _ => false
  end.

End LogFacility.

Module LogTimePrecision.

Inductive t := Milliseconds | Microseconds.

End LogTimePrecision.

(** ** Characters and strings *)

Definition newline : string := String "010"%char EmptyString.
Definition dquote : string := String "034"%char EmptyString.
Definition esc : string := String "027"%char EmptyString.

(** [::toupper] and [::tolower] in the C locale. *)
Definition toupper (c : ascii) : ascii :=
  let n := nat_of_ascii c in
  if ((97 <=? n) && (n <=? 122))%nat then ascii_of_nat (n - 32) else c.

Definition tolower (c : ascii) : ascii :=
  let n := nat_of_ascii c in
  if ((65 <=? n) && (n <=? 90))%nat then ascii_of_nat (n + 32) else c.

(** [std::transform(s.begin(), s.end(), out.begin(), f)] on a string. *)
Fixpoint transform (f : ascii -> ascii) (s : string) : string :=
  match s with
  | EmptyString => EmptyString
  | String c rest => String (f c) (transform f rest)
  end.

(** [strcasecmp(a, b) == 0]. *)
Definition strcasecmp_eq (a b : string) : bool :=
  String.eqb (transform tolower a) (transform tolower b).

(** [os << std::setfill('0') << std::setw(width) << n] for an unsigned
    [n]: decimal digits, padded on the left with zeros up to [width]. *)
Fixpoint zeros (k : nat) : string :=
  match k with
  | O => EmptyString
  | S k' => String "0"%char (zeros k')
  end.

Definition put_padded (width : nat) (n : N) : string :=
  let digits := NilZero.string_of_uint (N.to_uint n) in
  zeros (width - String.length digits) ++ digits.

(** ** ANSI escape sequences ([src/ansi.cpp]) *)

Module ansi.

Definition fg_red : string := esc ++ "[31m".
Definition fg_green : string := esc ++ "[32m".
Definition fg_yellow : string := esc ++ "[33m".
Definition fg_magenta : string := esc ++ "[35m".
Definition fg_reset : string := esc ++ "[39m".
Definition reset : string := esc ++ "[0m".
Definition bold_on : string := esc ++ "[1m".

End ansi.

(** ** Objects *)

(** Logger objects are named by their address in the store. *)
Abbreviation addr := nat (only parsing).

(** [std::thread::id]; a default-constructed id names no thread. *)
Abbreviation thread_id := nat (only parsing).

Module LoggingBuf.

Record t := mk {
  logger : addr;                    (* Logger *logger *)
  log_level : LogLevel.t;
  console : bool;
  busy : bool;                      (* std::atomic<bool> busy *)
  owning_thread : option thread_id;
  str : string;                     (* contents of the std::stringbuf *)
  signal : nat                      (* notify_one() calls issued on the
                                       condition variable *)
}.

Definition set_busy (b : t) (v : bool) : t :=
  mk (logger b) (log_level b) (console b) v (owning_thread b) (str b)
     (signal b).

Definition set_owning_thread (b : t) (v : option thread_id) : t :=
  mk (logger b) (log_level b) (console b) (busy b) v (str b) (signal b).

Definition set_str (b : t) (v : string) : t :=
  mk (logger b) (log_level b) (console b) (busy b) (owning_thread b) v
     (signal b).

Definition notify_one (b : t) : t :=
  mk (logger b) (log_level b) (console b) (busy b) (owning_thread b) (str b)
     (S (signal b)).

(** [LoggingBuf(Logger *logger, LogLevel log_level, bool console = false)] *)
Definition new (logger : addr) (log_level : LogLevel.t) (console : bool) : t :=
  mk logger log_level console false Datatypes.None EmptyString 0.

End LoggingBuf.

(** [std::ofstream log_file]: whether it is open, and on which path. *)
Module ofstream.

Record t := mk { is_open : bool; path : string }.

Definition closed : t := mk false EmptyString.

End ofstream.

(** The dynamic class of a logger object selects the [EmitLog] that a
    virtual call reaches. *)
Inductive LoggerClass := BaseLogger | CustomLogger.

(** The six streaming interfaces of a logger, each with its own buffer. *)
Inductive Channel :=
  ch_info | ch_warning | ch_error | ch_critical | ch_debug | ch_console.

Module Logger.

Record t := mk {
  class : LoggerClass;
  process_name : string;
  component_name : string;
  parent_logger : option addr;          (* LoggerPointer, null = None *)
  log_facility : LogFacility.t;
  log_level : LogLevel.t;
  info_buf : LoggingBuf.t;
  warning_buf : LoggingBuf.t;
  error_buf : LoggingBuf.t;
  critical_buf : LoggingBuf.t;
  debug_buf : LoggingBuf.t;
  console_buf : LoggingBuf.t;
  log_file : ofstream.t;
  output_to_console : bool;
  colorize : bool;
  time_digits : nat;
  time_modulo : N
}.

Definition set_log_facility (l : t) (v : LogFacility.t) : t :=
  mk (class l) (process_name l) (component_name l) (parent_logger l)
     v (log_level l)
     (info_buf l) (warning_buf l) (error_buf l) (critical_buf l)
     (debug_buf l) (console_buf l)
     (log_file l) (output_to_console l) (colorize l)
     (time_digits l) (time_modulo l).

Definition set_log_level (l : t) (v : LogLevel.t) : t :=
  mk (class l) (process_name l) (component_name l) (parent_logger l)
     (log_facility l) v
     (info_buf l) (warning_buf l) (error_buf l) (critical_buf l)
     (debug_buf l) (console_buf l)
     (log_file l) (output_to_console l) (colorize l)
     (time_digits l) (time_modulo l).

Definition set_log_file (l : t) (v : ofstream.t) : t :=
  mk (class l) (process_name l) (component_name l) (parent_logger l)
     (log_facility l) (log_level l)
     (info_buf l) (warning_buf l) (error_buf l) (critical_buf l)
     (debug_buf l) (console_buf l)
     v (output_to_console l) (colorize l)
     (time_digits l) (time_modulo l).

Definition set_colorize (l : t) (v : bool) : t :=
  mk (class l) (process_name l) (component_name l) (parent_logger l)
     (log_facility l) (log_level l)
     (info_buf l) (warning_buf l) (error_buf l) (critical_buf l)
     (debug_buf l) (console_buf l)
     (log_file l) (output_to_console l) v
     (time_digits l) (time_modulo l).

Definition set_time (l : t) (digits : nat) (modulo : N) : t :=
  mk (class l) (process_name l) (component_name l) (parent_logger l)
     (log_facility l) (log_level l)
     (info_buf l) (warning_buf l) (error_buf l) (critical_buf l)
     (debug_buf l) (console_buf l)
     (log_file l) (output_to_console l) (colorize l)
     digits modulo.

Definition buf (l : t) (ch : Channel) : LoggingBuf.t :=
  match ch with
  | ch_info => info_buf l
  | ch_warning => warning_buf l
  | ch_error => error_buf l
  | ch_critical => critical_buf l
  | ch_debug => debug_buf l
  | ch_console => console_buf l
  end.

Definition set_buf (l : t) (ch : Channel) (b : LoggingBuf.t) : t :=
  mk (class l) (process_name l) (component_name l) (parent_logger l)
     (log_facility l) (log_level l)
     (match ch with ch_info => b | _ => info_buf l end)
     (match ch with ch_warning => b | _ => warning_buf l end)
     (match ch with ch_error => b | _ => error_buf l end)
     (match ch with ch_critical => b | _ => critical_buf l end)
     (match ch with ch_debug => b | _ => debug_buf l end)
     (match ch with ch_console => b | _ => console_buf l end)
     (log_file l) (output_to_console l) (colorize l)
     (time_digits l) (time_modulo l).

End Logger.

(** ** The world a logger runs in *)

(** One call of the [SyslogInterface]. *)
Inductive SyslogCall :=
| sys_openlog (ident : string) (opt facility : Z)
| sys_closelog
| sys_syslog (priority : Z) (message : string).

(** One invocation of a CustomLogger callback. *)
Record CallbackCall := mkCallback {
  cb_logger : addr;
  cb_level : LogLevel.t;
  cb_message : string;
  cb_console : bool
}.

Record World := mkWorld {
  loggers : list Logger.t;             (* the store, indexed by address *)
  clog : string;                       (* characters written to std::clog *)
  cerr : string;                       (* characters written to std::cerr *)
  files : gmap string string;          (* file system: path to contents *)
  fs_can_open : string -> bool;        (* can this path be opened for
                                          appending? *)
  syslog_calls : list SyslogCall;      (* calls that reached the system *)
  callback_calls : list CallbackCall;  (* CustomLogger callbacks run *)
  local_time : string;                 (* std::put_time(localtime, "%FT%T") *)
  now_us : N;                          (* microseconds since the epoch *)
  stdout_isatty : bool;                (* isatty(STDOUT_FILENO) *)
  env_TERM : option string;            (* getenv("TERM") *)
  syslog_enabled : bool                (* LOGGER_SYSLOG_ENABLED defined *)
}.

Definition set_loggers (w : World) (v : list Logger.t) : World :=
  mkWorld v (clog w) (cerr w) (files w) (fs_can_open w) (syslog_calls w)
          (callback_calls w) (local_time w) (now_us w) (stdout_isatty w)
          (env_TERM w) (syslog_enabled w).

Definition set_clog (w : World) (v : string) : World :=
  mkWorld (loggers w) v (cerr w) (files w) (fs_can_open w) (syslog_calls w)
          (callback_calls w) (local_time w) (now_us w) (stdout_isatty w)
          (env_TERM w) (syslog_enabled w).

Definition set_cerr (w : World) (v : string) : World :=
  mkWorld (loggers w) (clog w) v (files w) (fs_can_open w) (syslog_calls w)
          (callback_calls w) (local_time w) (now_us w) (stdout_isatty w)
          (env_TERM w) (syslog_enabled w).

Definition set_files (w : World) (v : gmap string string) : World :=
  mkWorld (loggers w) (clog w) (cerr w) v (fs_can_open w) (syslog_calls w)
          (callback_calls w) (local_time w) (now_us w) (stdout_isatty w)
          (env_TERM w) (syslog_enabled w).

Definition set_syslog_calls (w : World) (v : list SyslogCall) : World :=
  mkWorld (loggers w) (clog w) (cerr w) (files w) (fs_can_open w) v
          (callback_calls w) (local_time w) (now_us w) (stdout_isatty w)
          (env_TERM w) (syslog_enabled w).

Definition set_callback_calls (w : World) (v : list CallbackCall) : World :=
  mkWorld (loggers w) (clog w) (cerr w) (files w) (fs_can_open w)
          (syslog_calls w) v (local_time w) (now_us w) (stdout_isatty w)
          (env_TERM w) (syslog_enabled w).

(** In-place update of the object at address [a]. *)
Definition modify (w : World) (a : addr) (f : Logger.t -> Logger.t) : World :=
  set_loggers w (alter f a (loggers w)).

(** ** Results of a call

    A call returns a value, or leaves by an exception, or is [Stuck]: it
    was made on an address that holds no object, or its walk up the
    parent links ran out of [fuel] (no store built by the constructors
    does either; see [wf_world]). *)

Inductive outcome (A : Type) :=
| Returns (v : A) (w : World)
| Throws (what : string) (w : World)
| Stuck.

Arguments Returns {A} v w.
Arguments Throws {A} what w.
Arguments Stuck {A}.

Definition bind {A B : Type} (o : outcome A) (k : A -> World -> outcome B)
  : outcome B :=
  match o with
  | Returns v w => k v w
  | Throws what w => Throws what w
  | Stuck => Stuck
  end.

(** ** SyslogInterface and <syslog.h> *)

Definition LOG_CRIT : Z := 2.
Definition LOG_ERR : Z := 3.
Definition LOG_WARNING : Z := 4.
Definition LOG_INFO : Z := 6.
Definition LOG_DEBUG : Z := 7.
Definition LOG_PID : Z := 1.
Definition LOG_DAEMON : Z := 24.

Definition openlog (w : World) (ident : string) (opt facility : Z) : World :=
  if syslog_enabled w
  then set_syslog_calls w (syslog_calls w ++ [sys_openlog ident opt facility])
  else w.

Definition closelog (w : World) : World :=
  if syslog_enabled w
  then set_syslog_calls w (syslog_calls w ++ [sys_closelog])
  else w.

(** [syslog(priority, "%s", message)] *)
Definition syslog (w : World) (priority : Z) (message : string) : World :=
  if syslog_enabled w
  then set_syslog_calls w (syslog_calls w ++ [sys_syslog priority message])
  else w.

(** ** std::ofstream *)

(** [log_file.open(filename, std::ios::out | std::ios::app)]: fails on a
    stream that is already open; otherwise the file is created when it
    does not exist and its contents are kept. *)
Definition ofstream_open (w : World) (f : ofstream.t) (filename : string)
  : World * ofstream.t :=
  if ofstream.is_open f then (w, f)
  else if fs_can_open w filename
  then (set_files w (<[filename := default EmptyString (files w !! filename)]>
                       (files w)),
        ofstream.mk true filename)
  else (w, f).

Definition ofstream_close (f : ofstream.t) : ofstream.t :=
  ofstream.mk false (ofstream.path f).

(** [log_file << text]: appended to the file when the stream is open. *)
Definition ofstream_write (w : World) (f : ofstream.t) (text : string) : World :=
  if ofstream.is_open f
  then set_files w (<[ofstream.path f :=
                        default EmptyString (files w !! ofstream.path f) ++ text]>
                      (files w))
  else w.

(** ** Logger: helpers *)

Definition LogLevelString (level : LogLevel.t) : string :=
  match level with
  | LogLevel.Critical => "CRITICAL"
  | LogLevel.Error => "ERROR"
  | LogLevel.Warning => "WARNING"
  | LogLevel.Info => "INFO"
  | LogLevel.Debug => "DEBUG"
  end.

Definition MapLogLevelToSysLog (level : LogLevel.t) : Z :=
  match level with
  | LogLevel.Critical => LOG_CRIT
  | LogLevel.Error => LOG_ERR
  | LogLevel.Warning => LOG_WARNING
  | LogLevel.Info => LOG_INFO
  | LogLevel.Debug => LOG_DEBUG
  end.

Definition GetTimestamp (w : World) (l : Logger.t) : string :=
  local_time w ++ "." ++
  put_padded (Logger.time_digits l) (now_us w mod Logger.time_modulo l)%N.

Definition IsColorPossible (w : World) : bool :=
  stdout_isatty w &&
  match env_TERM w with
  | Some term => negb (strcasecmp_eq term "dumb")
  | None => false
  end.

(** ** Logger: accessors that follow the parent links *)

Fixpoint GetLogFacility_fuel (fuel : nat) (w : World) (a : addr)
  : option LogFacility.t :=
  match fuel with
  | O => None
  | S fuel' =>
      match loggers w !! a with
      | None => None
      | Some l =>
          match Logger.parent_logger l with
          | Some p => GetLogFacility_fuel fuel' w p
          | None => Some (Logger.log_facility l)
          end
      end
  end.

Definition GetLogFacility (w : World) (a : addr) : option LogFacility.t :=
  GetLogFacility_fuel (length (loggers w)) w a.

Fixpoint IsColorized_fuel (fuel : nat) (w : World) (a : addr) : option bool :=
  match fuel with
  | O => None
  | S fuel' =>
      match loggers w !! a with
      | None => None
      | Some l =>
          match Logger.parent_logger l with
          | Some p => IsColorized_fuel fuel' w p
          | None => Some (Logger.colorize l)
          end
      end
  end.

Definition IsColorized (w : World) (a : addr) : option bool :=
  IsColorized_fuel (length (loggers w)) w a.

Definition GetLogLevel (w : World) (a : addr) : option LogLevel.t :=
  Logger.log_level <$> loggers w !! a.

Definition GetLogLevelString (w : World) (a : addr) : option string :=
  LogLevelString <$> GetLogLevel w a.

Definition IsDebugging (w : World) (a : addr) : option bool :=
  (fun level => LogLevel.geb level LogLevel.Debug) <$> GetLogLevel w a.

(** ** Logger::EmitLog and its override *)

Definition color_prefix (level : LogLevel.t) : string :=
  match level with
  | LogLevel.Critical => ansi.bold_on ++ ansi.fg_red
  | LogLevel.Error => ansi.bold_on ++ ansi.fg_magenta
  | LogLevel.Warning => ansi.bold_on ++ ansi.fg_yellow
  | LogLevel.Debug => ansi.fg_green
  | LogLevel.Info => ansi.fg_reset
  end.

Definition Logger_EmitLog (w : World) (l : Logger.t)
    (level : LogLevel.t) (message : string) (console : bool) : outcome unit :=
  let facility := Logger.log_facility l in
  let w1 :=
    if LogFacility.eqb facility LogFacility.Syslog
    then syslog w (MapLogLevelToSysLog level) message
    else w in
  let w2 :=
    if negb (LogFacility.eqb facility LogFacility.Syslog) || console then
      let timestamp := GetTimestamp w1 l in
      let stamped_message :=
        timestamp ++ " [" ++ LogLevelString level ++ "] " ++ message in
      let w_file :=
        if LogFacility.eqb facility LogFacility.File
        then ofstream_write w1 (Logger.log_file l) (stamped_message ++ newline)
        else w1 in
      if LogFacility.eqb facility LogFacility.Console || console then
        let colorize_log := Logger.colorize l in
        set_clog w_file
          (clog w_file
           ++ (if colorize_log then color_prefix level else EmptyString)
           ++ stamped_message
           ++ (if colorize_log then ansi.reset else EmptyString)
           ++ newline)
      else w_file
    else w1 in
  if LogFacility.eqb facility LogFacility.AndroidLog
  then Throws "Android LogLevel only supported on Android platform" w2
  else Returns tt w2.

(** The callback is run inside [try { ... } catch (...) { }]; what it does
    with its arguments is outside the logger, so the call is recorded. *)
Definition CustomLogger_EmitLog (w : World) (a : addr)
    (level : LogLevel.t) (message : string) (console : bool) : outcome unit :=
  Returns tt (set_callback_calls w
                (callback_calls w ++ [mkCallback a level message console])).

(** The virtual call [EmitLog(level, message, console)] on the object [l]
    at address [a]. *)
Definition EmitLog (w : World) (a : addr) (l : Logger.t)
    (level : LogLevel.t) (message : string) (console : bool) : outcome unit :=
  match Logger.class l with
  | BaseLogger => Logger_EmitLog w l level message console
  | CustomLogger => CustomLogger_EmitLog w a level message console
  end.

(** ** Logger::Log *)

(** The text a node hands on: its component name in brackets first, when
    it has one. *)
Definition formatted (l : Logger.t) (message : string) : string :=
  if (0 <? String.length (Logger.component_name l))%nat
  then "[" ++ Logger.component_name l ++ "] " ++ message
  else message.

Fixpoint Log_fuel (fuel : nat) (w : World) (a : addr)
    (level : LogLevel.t) (message : string) (console : bool) : outcome unit :=
  match fuel with
  | O => Stuck
  | S fuel' =>
      match loggers w !! a with
      | None => Stuck
      | Some l =>
          let console := console || Logger.output_to_console l in
          match GetLogFacility w a with
          | None => Stuck
          | Some facility =>
              if LogFacility.eqb facility LogFacility.None then Returns tt w
              else if LogLevel.gtb level (Logger.log_level l) then Returns tt w
              else
                let formatted_message := formatted l message in
                match Logger.parent_logger l with
                | Some p => Log_fuel fuel' w p level formatted_message console
                | None => EmitLog w a l level formatted_message console
                end
          end
      end
  end.

Definition Log (w : World) (a : addr)
    (level : LogLevel.t) (message : string) (console : bool) : outcome unit :=
  Log_fuel (length (loggers w)) w a level message console.

(** [void Logger::Log(const std::string &message)] *)
Definition Log_message (w : World) (a : addr) (message : string) : outcome unit :=
  Log w a LogLevel.Info message false.

(** ** Logger: configuration *)

Definition open_error (filename : string) : string :=
  "ERROR: Logger unable to open log file for writing: " ++ filename ++ newline.

Definition SetLogFacility (w : World) (a : addr)
    (facility : LogFacility.t) (filename : string) : outcome unit :=
  match loggers w !! a with
  | None => Stuck
  | Some l =>
      match Logger.parent_logger l with
      | Some _ => Returns tt w
      | None =>
          if negb (LogFacility.eqb (Logger.log_facility l) facility) then
            let w1 :=
              if LogFacility.eqb (Logger.log_facility l) LogFacility.Syslog
              then closelog w else w in
            let file1 :=
              if LogFacility.eqb (Logger.log_facility l) LogFacility.File
              then ofstream_close (Logger.log_file l) else Logger.log_file l in
            let w2 :=
              if LogFacility.eqb facility LogFacility.Syslog
              then openlog w1 (Logger.process_name l) LOG_PID LOG_DAEMON
              else w1 in
            let '(w3, file3, facility3) :=
              if LogFacility.eqb facility LogFacility.File then
                let '(w_open, file_open) := ofstream_open w2 file1 filename in
                if negb (ofstream.is_open file_open)
                then (set_cerr w_open (cerr w_open ++ open_error filename),
                      file_open, LogFacility.None)
                else (w_open, file_open, facility)
              else (w2, file1, facility) in
            Returns tt
              (modify w3 a (fun this =>
                 Logger.set_log_facility (Logger.set_log_file this file3)
                                         facility3))
          else Returns tt w
      end
  end.

(** [void Logger::SetLogLevel(LogLevel level)] *)
Definition SetLogLevel (w : World) (a : addr) (level : LogLevel.t)
  : outcome unit :=
  match loggers w !! a with
  | None => Stuck
  | Some _ => Returns tt (modify w a (fun this => Logger.set_log_level this level))
  end.

Definition level_error (level : string) : string :=
  "Unknown log level " ++ dquote ++ level ++ dquote ++
  "; setting log level to " ++ dquote ++ "INFO" ++ dquote.

(** [void Logger::SetLogLevel(const std::string level)] *)
Definition SetLogLevel_string (w : World) (a : addr) (level : string)
  : outcome unit :=
  let level_comparator := transform toupper level in
  if String.eqb level_comparator "INFO" then SetLogLevel w a LogLevel.Info
  else if String.eqb level_comparator "ERROR" then SetLogLevel w a LogLevel.Error
  else if String.eqb level_comparator "WARNING" then SetLogLevel w a LogLevel.Warning
  else if String.eqb level_comparator "CRITICAL" then SetLogLevel w a LogLevel.Critical
  else if String.eqb level_comparator "DEBUG" then SetLogLevel w a LogLevel.Debug
  else
    bind (Log w a LogLevel.Error (level_error level) true)
         (fun _ w1 => SetLogLevel w1 a LogLevel.Info).

Definition Colorize (w : World) (a : addr) (colorize_output : bool)
  : outcome unit :=
  match loggers w !! a with
  | None => Stuck
  | Some _ =>
      Returns tt
        (modify w a (fun this =>
           Logger.set_colorize this (colorize_output && IsColorPossible w)))
  end.

Definition SetTimePrecision (w : World) (a : addr)
    (precision : LogTimePrecision.t) : outcome unit :=
  match loggers w !! a with
  | None => Stuck
  | Some _ =>
      Returns tt
        (modify w a (fun this =>
           match precision with
           | LogTimePrecision.Milliseconds => Logger.set_time this 3 1000
           | LogTimePrecision.Microseconds => Logger.set_time this 6 1000000
           end))
  end.

(** The stream returned for a level, named by its channel. *)
Definition GetLoggingStream (level : LogLevel.t) : Channel :=
  match level with
  | LogLevel.Critical => ch_critical
  | LogLevel.Error => ch_error
  | LogLevel.Warning => ch_warning
  | LogLevel.Info => ch_info
  | LogLevel.Debug => ch_debug
  end.

(** ** Constructors

    The new object is allocated at the end of the store.  A parent, when
    given, is an object that already exists. *)

Definition Logger_init (w : World) (cls : LoggerClass)
    (process_name component_name : string) (parent_logger : option addr)
    (output_to_console : bool) : outcome addr :=
  let this := length (loggers w) in
  let log_level :=
    match parent_logger with
    | Some p => GetLogLevel w p
    | None => Some LogLevel.Info
    end in
  let colorize :=
    match parent_logger with
    | Some p => IsColorized w p
    | None => Some (IsColorPossible w)
    end in
  match log_level, colorize with
  | Some log_level, Some colorize =>
      Returns this
        (set_loggers w
           (loggers w ++
            [Logger.mk cls process_name component_name parent_logger
               LogFacility.Console
               log_level
               (LoggingBuf.new this LogLevel.Info false)
               (LoggingBuf.new this LogLevel.Warning false)
               (LoggingBuf.new this LogLevel.Error false)
               (LoggingBuf.new this LogLevel.Critical false)
               (LoggingBuf.new this LogLevel.Debug false)
               (LoggingBuf.new this LogLevel.Info true)
               ofstream.closed
               output_to_console
               colorize
               6
               1000000%N]))
  | _, _ => Stuck
  end.

(** [Logger(bool output_to_console = false)] *)
Definition Logger_new (w : World) (output_to_console : bool) : outcome addr :=
  Logger_init w BaseLogger "" "" None output_to_console.

(** [Logger(const std::string &process_name, bool output_to_console)] *)
Definition Logger_new_process (w : World) (process_name : string)
    (output_to_console : bool) : outcome addr :=
  Logger_init w BaseLogger process_name "" None output_to_console.

(** [Logger(process_name, component_name, output_to_console)] *)
Definition Logger_new_component (w : World)
    (process_name component_name : string) (output_to_console : bool)
  : outcome addr :=
  Logger_init w BaseLogger process_name component_name None output_to_console.

(** [Logger(component_name, parent_logger, output_to_console)] *)
Definition Logger_new_child (w : World) (component_name : string)
    (parent_logger : option addr) (output_to_console : bool) : outcome addr :=
  Logger_init w BaseLogger "" component_name parent_logger output_to_console.

(** [CustomLogger(callback)] and [CustomLogger(component_name, callback)] *)
Definition CustomLogger_new (w : World) : outcome addr :=
  Logger_init w CustomLogger "" "" None false.

Definition CustomLogger_new_component (w : World) (component_name : string)
  : outcome addr :=
  Logger_init w CustomLogger "" component_name None false.

(** ** LoggingBuf: the streaming interface

    A buffer is named by the address of the logger that holds it and by
    its channel. *)

Definition buffer (w : World) (a : addr) (ch : Channel) : option LoggingBuf.t :=
  (fun l => Logger.buf l ch) <$> loggers w !! a.

Definition modify_buf (w : World) (a : addr) (ch : Channel)
    (f : LoggingBuf.t -> LoggingBuf.t) : World :=
  modify w a (fun l => Logger.set_buf l ch (f (Logger.buf l ch))).

(** [std::chrono::seconds(n)], counted in milliseconds. *)
Definition seconds (n : nat) : nat := n * 1000.

(** What the other threads do while one thread waits on the condition
    variable: the world found at each wake-up (notification or spurious),
    with the time elapsed since the wait began, and the world found when
    the timeout expires. *)
Record Schedule := mkSchedule {
  wakeups : list (nat * World);
  at_deadline : World
}.

(** [signal.wait_for(lock, rel_time, pred)], that is
    [while (!pred()) if (wait_until(lock, deadline) == timeout) return pred();
     return true;]
    The result is the value returned, the time spent waiting and the
    world in which the wait ended. *)
Fixpoint wait_wakeups (rel_time : nat) (pred : World -> bool)
    (wakeups : list (nat * World)) (at_deadline : World) : bool * nat * World :=
  match wakeups with
  | [] => (pred at_deadline, rel_time, at_deadline)
  | (elapsed, w) :: rest =>
      if (rel_time <=? elapsed)%nat then (pred at_deadline, rel_time, at_deadline)
      else if pred w then (true, elapsed, w)
      else wait_wakeups rel_time pred rest at_deadline
  end.

Definition wait_for (rel_time : nat) (pred : World -> bool)
    (w : World) (sched : Schedule) : bool * nat * World :=
  if pred w then (true, 0, w)
  else wait_wakeups rel_time pred (wakeups sched) (at_deadline sched).

(** The predicate [thread_sync] waits for, on the calling thread [me]. *)
Definition may_enter (me : thread_id) (b : LoggingBuf.t) : bool :=
  negb (LoggingBuf.busy b) ||
  (LoggingBuf.busy b && bool_decide (LoggingBuf.owning_thread b = Some me)).

Definition buffer_free (a : addr) (ch : Channel) (me : thread_id) (w : World)
  : bool :=
  match buffer w a ch with
  | Some b => may_enter me b
  | None => false
  end.

Definition forgot_flush : string := "Somebody forgot to call std::flush!?".

Definition thread_sync (w : World) (a : addr) (ch : Channel)
    (me : thread_id) (sched : Schedule) : outcome unit :=
  let '(wait_result, _, w1) :=
    wait_for (seconds 1) (buffer_free a ch me) w sched in
  match buffer w1 a ch with
  | None => Stuck
  | Some b =>
      bind
        (if negb wait_result then
           bind (Log w1 (LoggingBuf.logger b) LogLevel.Error forgot_flush false)
                (fun _ w2 =>
                   Returns tt
                     (modify_buf w2 a ch (fun b => LoggingBuf.set_busy b false)))
         else Returns tt w1)
        (fun _ w3 =>
           match buffer w3 a ch with
           | None => Stuck
           | Some b3 =>
               if negb (LoggingBuf.busy b3) then
                 Returns tt
                   (modify_buf w3 a ch (fun b =>
                      LoggingBuf.set_owning_thread (LoggingBuf.set_busy b true)
                                                   (Some me)))
               else Returns tt w3
           end)
  end.

(** [xsputn(c, n)]: the [n] characters are the string [s]. *)
Definition xsputn (w : World) (a : addr) (ch : Channel)
    (me : thread_id) (sched : Schedule) (s : string) : outcome nat :=
  bind (thread_sync w a ch me sched)
       (fun _ w1 =>
          Returns (String.length s)
            (modify_buf w1 a ch (fun b =>
               LoggingBuf.set_str b (LoggingBuf.str b ++ s)))).

Definition sync (w : World) (a : addr) (ch : Channel)
    (me : thread_id) (sched : Schedule) : outcome Z :=
  bind (thread_sync w a ch me sched)
       (fun _ w1 =>
          match buffer w1 a ch with
          | None => Stuck
          | Some b =>
              bind (Log w1 (LoggingBuf.logger b) (LoggingBuf.log_level b)
                        (LoggingBuf.str b) (LoggingBuf.console b))
                   (fun _ w2 =>
                      Returns 0%Z
                        (modify_buf w2 a ch (fun b =>
                           LoggingBuf.notify_one
                             (LoggingBuf.set_busy
                                (LoggingBuf.set_str b EmptyString) false))))
          end).

(** ** Stores built by the constructors

    A parent exists before its child is constructed and the link is never
    reassigned, so every parent link points to a smaller address; and
    each buffer points back to the logger that holds it. *)

Definition wf_logger (a : addr) (l : Logger.t) : bool :=
  match Logger.parent_logger l with
  | Some p => (p <? a)%nat
  | None => true
  end.

Fixpoint wf_from (a : addr) (ls : list Logger.t) : bool :=
  match ls with
  | [] => true
  | l :: rest => wf_logger a l && wf_from (S a) rest
  end.

Definition wf_world (w : World) : bool := wf_from 0 (loggers w).

(** The root reached from [a] by following the parent links. *)
Fixpoint root_fuel (fuel : nat) (w : World) (a : addr) : option addr :=
  match fuel with
  | O => None
  | S fuel' =>
      match loggers w !! a with
      | None => None
      | Some l =>
          match Logger.parent_logger l with
          | Some p => root_fuel fuel' w p
          | None => Some a
          end
      end
  end.

Definition root (w : World) (a : addr) : option addr :=
  root_fuel (length (loggers w)) w a.

(** ** The chain of nodes a message travels

    The nodes from [a] up to the root, in the order in which [Log] visits
    them, and what they do to a message between them. *)

Fixpoint path_fuel (fuel : nat) (w : World) (a : addr) : list Logger.t :=
  match fuel with
  | O => []
  | S fuel' =>
      match loggers w !! a with
      | None => []
      | Some l =>
          l :: match Logger.parent_logger l with
               | Some p => path_fuel fuel' w p
               | None => []
               end
      end
  end.

Definition path (w : World) (a : addr) : list Logger.t :=
  path_fuel (length (loggers w)) w a.

(** The node's own severity check lets [level] through. *)
Definition admits (level : LogLevel.t) (l : Logger.t) : bool :=
  negb (LogLevel.gtb level (Logger.log_level l)).

(** The message and the console flag after the given hops. *)
Definition text_after (hops : list Logger.t) (message : string) : string :=
  fold_left (fun m l => formatted l m) hops message.

Definition console_after (hops : list Logger.t) (console : bool) : bool :=
  fold_left (fun c l => c || Logger.output_to_console l) hops console.

(** A log file is open exactly while the facility is [File]. *)
Definition file_inv (l : Logger.t) : bool :=
  bool_decide (ofstream.is_open (Logger.log_file l) = true ->
               Logger.log_facility l = LogFacility.File).

(** ** Scenarios *)

(** The world of a call that came back, by return or by exception. *)
Definition world_after {A : Type} (w : World) (o : outcome A) : World :=
  match o with
  | Returns _ w' | Throws _ w' => w'
  | Stuck => w
  end.

(** No logger yet; the console is not a terminal; every path but the
    empty one can be opened. *)
Definition fresh_world : World :=
  mkWorld [] EmptyString EmptyString ∅
          (fun filename => negb (String.eqb filename EmptyString))
          [] [] "2024-05-17T10:11:12" 1715940672123456 false None true.

(** A root logger for the process "LTST", at address 0:
    [Logger(std::string("LTST"))]. *)
Definition logger_test : World :=
  world_after fresh_world (Logger_new_process fresh_world "LTST" false).

(** [CustomLoggerTest]: the custom logger at address 0 and its child
    [Logger("LTST", custom_logger)] at address 1. *)
Definition custom_test : World :=
  let w1 := world_after fresh_world (CustomLogger_new fresh_world) in
  world_after w1 (Logger_new_child w1 "LTST" (Some 0) false).

(** [BasicTest] after [logger->SetLogLevel(LogLevel::Debug)] on the child. *)
Definition basic_test : World :=
  world_after custom_test (SetLogLevel custom_test 1 LogLevel.Debug).

(** A root on the console with two generations below it, labelled
    "NET" (address 1) and "TLS" (address 2, child of 1). *)
Definition three_levels : World :=
  let w1 := world_after fresh_world (Logger_new fresh_world false) in
  let w2 := world_after w1 (Logger_new_child w1 "NET" (Some 0) false) in
  world_after w2 (Logger_new_child w2 "TLS" (Some 1) false).

(** [BasicTest] with logging turned off at the root:
    [custom_logger->SetLogFacility(LogFacility::None)]. *)
Definition silenced : World :=
  world_after basic_test (SetLogFacility basic_test 0 LogFacility.None "").

(** The "LTST" root after [logger->SetLogLevel(LogLevel::Critical)]. *)
Definition critical_only : World :=
  world_after logger_test (SetLogLevel logger_test 0 LogLevel.Critical).

(** On the "LTST" root, thread 1 has written [logger->info << "Test Log 1"] and
    has not flushed yet.  No other thread was in the way: the schedule of
    the wait is idle. *)
Definition idle (w : World) : Schedule := mkSchedule [] w.

Definition streaming : World :=
  world_after logger_test
    (xsputn logger_test 0 ch_info 1 (idle logger_test) "Test Log 1").

(** Thread 1 never flushes: thread 2, waiting on the same buffer, is woken
    twice and finds it owned each time, and still when its wait is over. *)
Definition never_flushed : Schedule :=
  mkSchedule [(300, streaming); (700, streaming)] streaming.

(** Thread 1 has flushed. *)
Definition flushed : World :=
  world_after streaming (sync streaming 0 ch_info 1 (idle streaming)).

(** ** logger_macros.h

    A [LOGGER_X(logger, message)] macro expands to the streaming statement
    [(logger)->GetLoggingStream(LogLevel::X) << message << std::flush], or
    to nothing, as the value of [LOGGER_LEVEL] selects at compile time. *)

Inductive Expansion :=
| stream_and_flush (level : LogLevel.t)
| no_tokens.

Definition LOGGER_LEVEL_CRITICAL : Z := 0.
Definition LOGGER_LEVEL_ERROR : Z := 1.
Definition LOGGER_LEVEL_WARNING : Z := 2.
Definition LOGGER_LEVEL_INFO : Z := 3.
Definition LOGGER_LEVEL_DEBUG : Z := 4.

(** The [#if ... #elif ... #else] chain, read for the macro of [level]. *)
Definition LOGGER_macro (LOGGER_LEVEL : Z) (level : LogLevel.t) : Expansion :=
  if (LOGGER_LEVEL <=? LOGGER_LEVEL_CRITICAL)%Z then
    match level with
    | LogLevel.Critical => stream_and_flush LogLevel.Critical
    | _ => no_tokens
    end
  else if (LOGGER_LEVEL <=? LOGGER_LEVEL_ERROR)%Z then
    match level with
    | LogLevel.Critical => stream_and_flush LogLevel.Critical
    | LogLevel.Error => stream_and_flush LogLevel.Error
    | _ => no_tokens
    end
  else if (LOGGER_LEVEL <=? LOGGER_LEVEL_WARNING)%Z then
    match level with
    | LogLevel.Critical => stream_and_flush LogLevel.Critical
    | LogLevel.Error => stream_and_flush LogLevel.Error
    | LogLevel.Warning => stream_and_flush LogLevel.Warning
    | _ => no_tokens
    end
  else if (LOGGER_LEVEL <=? LOGGER_LEVEL_INFO)%Z then
    match level with
    | LogLevel.Critical => stream_and_flush LogLevel.Critical
    | LogLevel.Error => stream_and_flush LogLevel.Error
    | LogLevel.Warning => stream_and_flush LogLevel.Warning
    | LogLevel.Info => stream_and_flush LogLevel.Info
    | LogLevel.Debug => no_tokens
    end
  else
    match level with
    | LogLevel.Critical => stream_and_flush LogLevel.Critical
    | LogLevel.Error => stream_and_flush LogLevel.Error
    | LogLevel.Warning => stream_and_flush LogLevel.Warning
    | LogLevel.Info => stream_and_flush LogLevel.Info
    | LogLevel.Debug => stream_and_flush LogLevel.Debug
    end.

(** ** Logger::~Logger

    The body of the destructor, on the object at [a].  (The object itself
    stays in the store: addresses are not reused.) *)
Definition Logger_dtor (w : World) (a : addr) : outcome unit :=
  match loggers w !! a with
  | None => Stuck
  | Some l =>
      match Logger.parent_logger l with
      | Some _ => Returns tt w
      | None =>
          let w1 :=
            if LogFacility.eqb (Logger.log_facility l) LogFacility.Syslog
            then closelog w else w in
          if LogFacility.eqb (Logger.log_facility l) LogFacility.File
          then Returns tt
                 (modify w1 a (fun this =>
                    Logger.set_log_file this
                      (ofstream_close (Logger.log_file this))))
          else Returns tt w1
      end
  end.

(** ** Vocabulary of the further properties *)

(** The outcome of a call, with [f] applied to the world it leaves. *)
Definition outcome_map {A : Type} (f : World -> World) (o : outcome A)
  : outcome A :=
  match o with
  | Returns v w => Returns v (f w)
  | Throws what w => Throws what (f w)
  | Stuck => Stuck
  end.



(** The two settings of the time stamp that the code ever stores. *)
Definition time_inv (l : Logger.t) : bool :=
  (Nat.eqb (Logger.time_digits l) 3 && N.eqb (Logger.time_modulo l) 1000)
  || (Nat.eqb (Logger.time_digits l) 6 && N.eqb (Logger.time_modulo l) 1000000).

(** [P] holds of [n], [n + 1], ..., [n + count - 1]. *)
Fixpoint all_from (count : nat) (n : N) (P : N -> bool) : bool :=
  match count with
  | O => true
  | S count' => P n && all_from count' (N.succ n) P
  end.

(** A world in which a thread may end its wait on the buffer [(a, ch)]:
    the store is well formed, the buffer is there and points to a logger
    of the store, and the root above that logger is not set to
    AndroidLog. *)
Definition wait_end_ok (a : addr) (ch : Channel) (w : World) : bool :=
  wf_world w &&
  match buffer w a ch with
  | Some b =>
      (LoggingBuf.logger b <? length (loggers w))%nat &&
      negb (bool_decide (GetLogFacility w (LoggingBuf.logger b)
                         = Some LogFacility.AndroidLog))
  | None => false
  end.

(** The "LTST" root set to the Android facility, on this platform. *)
Definition android_root : World :=
  world_after logger_test
    (SetLogFacility logger_test 0 LogFacility.AndroidLog "").

(** Everything of a logger but its six buffers: what [Log] and [EmitLog]
    read. *)
Definition routing (l : Logger.t) :=
  (Logger.class l, Logger.process_name l, Logger.component_name l,
   Logger.parent_logger l, Logger.log_facility l, Logger.log_level l,
   Logger.log_file l, Logger.output_to_console l, Logger.colorize l,
   Logger.time_digits l, Logger.time_modulo l).

Definition keeps_routing (g : Logger.t -> Logger.t) : Prop :=
  forall l, routing (g l) = routing l.

(** The buffer as [thread_sync] leaves it to the thread [me]. *)
Definition owned_by (me : thread_id) (b : LoggingBuf.t) : LoggingBuf.t :=
  LoggingBuf.mk (LoggingBuf.logger b) (LoggingBuf.log_level b)
    (LoggingBuf.console b) true (Some me) (LoggingBuf.str b)
    (LoggingBuf.signal b).

(** The buffer as [sync] leaves it. *)
Definition flushed_buf (b : LoggingBuf.t) : LoggingBuf.t :=
  LoggingBuf.mk (LoggingBuf.logger b) (LoggingBuf.log_level b)
    (LoggingBuf.console b) false (LoggingBuf.owning_thread b) EmptyString
    (S (LoggingBuf.signal b)).

Definition keeps_parent (g : Logger.t -> Logger.t) : Prop :=
  forall l, Logger.parent_logger (g l) = Logger.parent_logger l.

(** The facility a root ends up with after [SetLogFacility(facility,
    filename)], from the facility it had. *)
Definition facility_after (w : World) (old facility : LogFacility.t)
    (filename : string) : LogFacility.t :=
  if LogFacility.eqb facility LogFacility.File
     && negb (LogFacility.eqb old LogFacility.File)
     && negb (fs_can_open w filename)
  then LogFacility.None
  else facility.

(** ** Basic facts *)

Lemma LogFacility_eqb_eq (a b : LogFacility.t) :
  LogFacility.eqb a b = true <-> a = b.
Proof. destruct a, b; simpl; split; congruence. Qed.

Lemma LogFacility_eqb_neq (a b : LogFacility.t) :
  a <> b -> LogFacility.eqb a b = false.
Proof. destruct a, b; simpl; congruence. Qed.

Lemma wf_from_lookup (ls : list Logger.t) (n i : nat) (l : Logger.t) :
  wf_from n ls = true -> ls !! i = Some l -> wf_logger (n + i) l = true.
Proof.
  revert n i. induction ls as [|x ls IH]; intros n i Hwf Hl; [done|].
  simpl in Hwf. apply andb_true_iff in Hwf as [Hx Hrest].
  destruct i as [|i]; simpl in Hl.
  - injection Hl as ->. by rewrite Nat.add_0_r.
  - replace (n + S i) with (S n + i) by lia. by apply IH.
Qed.

Lemma wf_parent_lt (w : World) (a p : addr) (l : Logger.t) :
  wf_world w = true -> loggers w !! a = Some l ->
  Logger.parent_logger l = Some p -> p < a.
Proof.
  intros Hwf Hl Hp. pose proof (wf_from_lookup _ 0 a l Hwf Hl) as H.
  unfold wf_logger in H. rewrite Hp in H. simpl in H.
  by apply Nat.ltb_lt in H.
Qed.

(** *** Enough fuel: the walk up from [a] takes at most [a + 1] steps *)

Lemma root_fuel_enough (w : World) (fuel fuel' : nat) (a : addr) :
  wf_world w = true -> a < fuel -> a < fuel' ->
  root_fuel fuel w a = root_fuel fuel' w a.
Proof.
  intros Hwf. revert fuel' a.
  induction fuel as [|fuel IH]; intros fuel' a Ha Ha'; [lia|].
  destruct fuel' as [|fuel']; [lia|]. simpl.
  destruct (loggers w !! a) as [l|] eqn:Hl; [|done].
  destruct (Logger.parent_logger l) as [p|] eqn:Hp; [|done].
  pose proof (wf_parent_lt w a p l Hwf Hl Hp). apply IH; lia.
Qed.

Lemma root_unfold (w : World) (a : addr) (l : Logger.t) :
  wf_world w = true -> loggers w !! a = Some l ->
  root w a = match Logger.parent_logger l with
             | Some p => root w p
             | None => Some a
             end.
Proof.
  intros Hwf Hl. unfold root.
  pose proof (lookup_lt_Some _ _ _ Hl) as Hlt.
  rewrite (root_fuel_enough w _ (S a) a Hwf Hlt (Nat.lt_succ_diag_r a)).
  simpl. rewrite Hl.
  destruct (Logger.parent_logger l) as [p|] eqn:Hp; [|done].
  pose proof (wf_parent_lt w a p l Hwf Hl Hp).
  apply root_fuel_enough; [done|lia|lia].
Qed.

(** Every object of a well-formed store has a root, which is an object
    without a parent. *)
Lemma root_exists (w : World) (a : addr) :
  wf_world w = true -> a < length (loggers w) ->
  exists r lr, root w a = Some r /\ r <= a /\ loggers w !! r = Some lr /\
               Logger.parent_logger lr = None.
Proof.
  intros Hwf. induction a as [a IH] using lt_wf_ind. intros Ha.
  destruct (lookup_lt_is_Some_2 (loggers w) a Ha) as [l Hl].
  rewrite (root_unfold w a l Hwf Hl).
  destruct (Logger.parent_logger l) as [p|] eqn:Hp.
  - pose proof (wf_parent_lt w a p l Hwf Hl Hp) as Hlt.
    destruct (IH p Hlt ltac:(lia)) as (r & lr & Hr & Hle & Hlr & Hnone).
    exists r, lr. repeat split; try done. lia.
  - exists a, l. repeat split; done.
Qed.

(** [GetLogFacility] is the [log_facility] field of the root, whatever
    the fuel. *)
Lemma GetLogFacility_fuel_root (fuel : nat) (w : World) (a : addr) :
  GetLogFacility_fuel fuel w a =
  match root_fuel fuel w a with
  | Some r => Logger.log_facility <$> loggers w !! r
  | None => None
  end.
Proof.
  revert a. induction fuel as [|fuel IH]; intros a; [done|]. simpl.
  destruct (loggers w !! a) as [l|] eqn:Hl; [|done].
  destruct (Logger.parent_logger l) as [p|] eqn:Hp; [apply IH|].
  by rewrite Hl.
Qed.

Lemma GetLogFacility_root (w : World) (a : addr) :
  GetLogFacility w a =
  match root w a with
  | Some r => Logger.log_facility <$> loggers w !! r
  | None => None
  end.
Proof. apply GetLogFacility_fuel_root. Qed.

Lemma GetLogFacility_unfold (w : World) (a : addr) (l : Logger.t) :
  wf_world w = true -> loggers w !! a = Some l ->
  GetLogFacility w a = match Logger.parent_logger l with
                       | Some p => GetLogFacility w p
                       | None => Some (Logger.log_facility l)
                       end.
Proof.
  intros Hwf Hl. rewrite GetLogFacility_root, (root_unfold w a l Hwf Hl).
  destruct (Logger.parent_logger l) as [p|].
  - by rewrite GetLogFacility_root.
  - by rewrite Hl.
Qed.

Lemma IsColorized_fuel_root (fuel : nat) (w : World) (a : addr) :
  IsColorized_fuel fuel w a =
  match root_fuel fuel w a with
  | Some r => Logger.colorize <$> loggers w !! r
  | None => None
  end.
Proof.
  revert a. induction fuel as [|fuel IH]; intros a; [done|]. simpl.
  destruct (loggers w !! a) as [l|] eqn:Hl; [|done].
  destruct (Logger.parent_logger l) as [p|] eqn:Hp; [apply IH|].
  by rewrite Hl.
Qed.

Lemma Log_fuel_enough (w : World) (fuel fuel' : nat) (a : addr)
    (level : LogLevel.t) (message : string) (console : bool) :
  wf_world w = true -> a < fuel -> a < fuel' ->
  Log_fuel fuel w a level message console =
  Log_fuel fuel' w a level message console.
Proof.
  intros Hwf. revert fuel' a message console.
  induction fuel as [|fuel IH]; intros fuel' a message console Ha Ha'; [lia|].
  destruct fuel' as [|fuel']; [lia|]. simpl.
  destruct (loggers w !! a) as [l|] eqn:Hl; [|done].
  destruct (GetLogFacility w a) as [facility|]; [|done].
  destruct (LogFacility.eqb facility LogFacility.None); [done|].
  destruct (LogLevel.gtb level (Logger.log_level l)); [done|].
  destruct (Logger.parent_logger l) as [p|] eqn:Hp; [|done].
  pose proof (wf_parent_lt w a p l Hwf Hl Hp). apply IH; lia.
Qed.

(** The body of [Logger::Log], with the recursive call as the source has
    it. *)
Lemma Log_unfold (w : World) (a : addr) (l : Logger.t)
    (level : LogLevel.t) (message : string) (console : bool) :
  wf_world w = true -> loggers w !! a = Some l ->
  Log w a level message console =
  match GetLogFacility w a with
  | None => Stuck
  | Some facility =>
      if LogFacility.eqb facility LogFacility.None then Returns tt w
      else if LogLevel.gtb level (Logger.log_level l) then Returns tt w
      else
        match Logger.parent_logger l with
        | Some p => Log w p level (formatted l message)
                        (console || Logger.output_to_console l)
        | None => EmitLog w a l level (formatted l message)
                          (console || Logger.output_to_console l)
        end
  end.
Proof.
  intros Hwf Hl. unfold Log.
  pose proof (lookup_lt_Some _ _ _ Hl) as Hlt.
  rewrite (Log_fuel_enough w _ (S a) a _ _ _ Hwf Hlt (Nat.lt_succ_diag_r a)).
  simpl. rewrite Hl.
  destruct (GetLogFacility w a) as [facility|]; [|done].
  destruct (LogFacility.eqb facility LogFacility.None); [done|].
  destruct (LogLevel.gtb level (Logger.log_level l)); [done|].
  destruct (Logger.parent_logger l) as [p|] eqn:Hp; [|done].
  pose proof (wf_parent_lt w a p l Hwf Hl Hp).
  apply Log_fuel_enough; [done|lia|lia].
Qed.

(** *** The chain *)

Lemma path_fuel_enough (w : World) (fuel fuel' : nat) (a : addr) :
  wf_world w = true -> a < fuel -> a < fuel' ->
  path_fuel fuel w a = path_fuel fuel' w a.
Proof.
  intros Hwf. revert fuel' a.
  induction fuel as [|fuel IH]; intros fuel' a Ha Ha'; [lia|].
  destruct fuel' as [|fuel']; [lia|]. simpl.
  destruct (loggers w !! a) as [l|] eqn:Hl; [|done].
  destruct (Logger.parent_logger l) as [p|] eqn:Hp; [|done].
  pose proof (wf_parent_lt w a p l Hwf Hl Hp). f_equal. apply IH; lia.
Qed.

Lemma path_unfold (w : World) (a : addr) (l : Logger.t) :
  wf_world w = true -> loggers w !! a = Some l ->
  path w a = l :: match Logger.parent_logger l with
                  | Some p => path w p
                  | None => []
                  end.
Proof.
  intros Hwf Hl. unfold path.
  pose proof (lookup_lt_Some _ _ _ Hl) as Hlt.
  rewrite (path_fuel_enough w _ (S a) a Hwf Hlt (Nat.lt_succ_diag_r a)).
  simpl. rewrite Hl. f_equal.
  destruct (Logger.parent_logger l) as [p|] eqn:Hp; [|done].
  pose proof (wf_parent_lt w a p l Hwf Hl Hp).
  apply path_fuel_enough; [done|lia|lia].
Qed.

(** What a whole call of [Log] does, when the root's facility is not
    [None]: the message reaches [EmitLog] at the root, with every label
    on the way in front of it, when every node on the way admits its
    level; and nothing happens otherwise. *)
Lemma Log_chain (w : World) (a r : addr) (lr : Logger.t)
    (level : LogLevel.t) (message : string) (console : bool) :
  wf_world w = true -> a < length (loggers w) ->
  root w a = Some r -> loggers w !! r = Some lr ->
  Logger.log_facility lr <> LogFacility.None ->
  Log w a level message console =
  if forallb (admits level) (path w a)
  then EmitLog w r lr level (text_after (path w a) message)
                            (console_after (path w a) console)
  else Returns tt w.
Proof.
  intros Hwf Ha Hr Hlr Hfac. revert message console Ha Hr.
  induction a as [a IH] using lt_wf_ind. intros message console Ha Hr.
  destruct (lookup_lt_is_Some_2 (loggers w) a Ha) as [l Hl].
  rewrite (Log_unfold w a l _ _ _ Hwf Hl), GetLogFacility_root, Hr, Hlr.
  simpl. rewrite LogFacility_eqb_neq by done.
  rewrite (path_unfold w a l Hwf Hl). simpl. unfold admits at 1.
  rewrite (root_unfold w a l Hwf Hl) in Hr.
  destruct (LogLevel.gtb level (Logger.log_level l)); [done|]. simpl.
  destruct (Logger.parent_logger l) as [p|] eqn:Hp.
  - pose proof (wf_parent_lt w a p l Hwf Hl Hp) as Hlt.
    apply IH; [done|lia|done].
  - assert (r = a) as -> by congruence.
    pose proof (eq_trans (eq_sym Hlr) Hl) as E. injection E as ->. done.
Qed.

(** ... and what it does when the root's facility is [None]. *)
Lemma Log_sink_None (w : World) (a r : addr) (lr : Logger.t)
    (level : LogLevel.t) (message : string) (console : bool) :
  wf_world w = true -> a < length (loggers w) ->
  root w a = Some r -> loggers w !! r = Some lr ->
  Logger.log_facility lr = LogFacility.None ->
  Log w a level message console = Returns tt w.
Proof.
  intros Hwf Ha Hr Hlr Hnone.
  destruct (lookup_lt_is_Some_2 (loggers w) a Ha) as [l Hl].
  rewrite (Log_unfold w a l _ _ _ Hwf Hl), GetLogFacility_root, Hr, Hlr.
  simpl. by rewrite Hnone.
Qed.

(** Both together. *)
Lemma Log_cases (w : World) (a r : addr) (lr : Logger.t)
    (level : LogLevel.t) (message : string) (console : bool) :
  wf_world w = true -> a < length (loggers w) ->
  root w a = Some r -> loggers w !! r = Some lr ->
  Log w a level message console =
  if negb (LogFacility.eqb (Logger.log_facility lr) LogFacility.None)
     && forallb (admits level) (path w a)
  then EmitLog w r lr level (text_after (path w a) message)
                            (console_after (path w a) console)
  else Returns tt w.
Proof.
  intros Hwf Ha Hr Hlr.
  destruct (decide (Logger.log_facility lr = LogFacility.None)) as [Hn|Hn].
  - rewrite Hn. simpl. by apply (Log_sink_None w a r lr).
  - rewrite (LogFacility_eqb_neq _ _ Hn). simpl.
    by apply Log_chain.
Qed.

(** *** Frame: [Log] writes to the sinks and leaves every object as it is *)

Lemma ofstream_write_loggers (w : World) (f : ofstream.t) (text : string) :
  loggers (ofstream_write w f text) = loggers w.
Proof. unfold ofstream_write. by destruct (ofstream.is_open f). Qed.

Lemma syslog_loggers (w : World) (priority : Z) (message : string) :
  loggers (syslog w priority message) = loggers w.
Proof. unfold syslog. by destruct (syslog_enabled w). Qed.

Lemma Logger_EmitLog_loggers (w : World) (l : Logger.t)
    (level : LogLevel.t) (message : string) (console : bool) :
  match Logger_EmitLog w l level message console with
  | Returns _ w' | Throws _ w' => loggers w' = loggers w
  | Stuck => False
  end.
Proof.
  unfold Logger_EmitLog.
  destruct (LogFacility.eqb (Logger.log_facility l) LogFacility.AndroidLog);
    destruct (LogFacility.eqb (Logger.log_facility l) LogFacility.Syslog);
    destruct (LogFacility.eqb (Logger.log_facility l) LogFacility.File);
    destruct (LogFacility.eqb (Logger.log_facility l) LogFacility.Console);
    destruct console; simpl;
    rewrite ?ofstream_write_loggers, ?syslog_loggers; reflexivity.
Qed.

Lemma EmitLog_loggers (w : World) (a : addr) (l : Logger.t)
    (level : LogLevel.t) (message : string) (console : bool) :
  match EmitLog w a l level message console with
  | Returns _ w' | Throws _ w' => loggers w' = loggers w
  | Stuck => False
  end.
Proof.
  unfold EmitLog. destruct (Logger.class l); [apply Logger_EmitLog_loggers|done].
Qed.

Lemma Log_fuel_loggers (fuel : nat) (w : World) (a : addr)
    (level : LogLevel.t) (message : string) (console : bool) :
  match Log_fuel fuel w a level message console with
  | Returns _ w' | Throws _ w' => loggers w' = loggers w
  | Stuck => True
  end.
Proof.
  revert a message console.
  induction fuel as [|fuel IH]; intros a message console; [done|]. simpl.
  destruct (loggers w !! a) as [l|]; [|done].
  destruct (GetLogFacility w a) as [facility|]; [|done].
  destruct (LogFacility.eqb facility LogFacility.None); [done|].
  destruct (LogLevel.gtb level (Logger.log_level l)); [done|].
  destruct (Logger.parent_logger l) as [p|]; [apply IH|].
  pose proof (EmitLog_loggers w a l level (formatted l message)
                (console || Logger.output_to_console l)) as H.
  by destruct (EmitLog _ _ _ _ _ _).
Qed.

Lemma Log_loggers (w w' : World) (a : addr)
    (level : LogLevel.t) (message : string) (console : bool) :
  Log w a level message console = Returns tt w' -> loggers w' = loggers w.
Proof.
  intros H. pose proof (Log_fuel_loggers (length (loggers w)) w a level
                          message console) as Hf.
  unfold Log in H. by rewrite H in Hf.
Qed.

(** ** The constructors build well-formed stores *)

Lemma wf_from_app (n : nat) (ls : list Logger.t) (l : Logger.t) :
  wf_from n (ls ++ [l]) = wf_from n ls && wf_logger (n + length ls) l.
Proof.
  revert n. induction ls as [|x ls IH]; intros n; simpl.
  - by rewrite Nat.add_0_r, andb_true_r.
  - rewrite IH, andb_assoc. do 2 f_equal. lia.
Qed.

Lemma Logger_init_wf (w w' : World) (cls : LoggerClass)
    (process_name component_name : string) (parent_logger : option addr)
    (output_to_console : bool) (this : addr) :
  wf_world w = true ->
  Logger_init w cls process_name component_name parent_logger
              output_to_console = Returns this w' ->
  wf_world w' = true.
Proof.
  intros Hwf. unfold Logger_init.
  destruct parent_logger as [p|].
  - destruct (GetLogLevel w p) as [level|] eqn:Hlevel; [|done].
    destruct (IsColorized w p) as [colorized|]; [|done].
    intros [= _ <-]. unfold wf_world. simpl.
    rewrite wf_from_app. fold (wf_world w). rewrite Hwf. simpl.
    unfold wf_logger. simpl. apply Nat.ltb_lt.
    unfold GetLogLevel in Hlevel.
    destruct (loggers w !! p) as [lp|] eqn:Hlp; [|done].
    by apply lookup_lt_Some in Hlp.
  - intros [= _ <-]. unfold wf_world. simpl.
    rewrite wf_from_app. fold (wf_world w). by rewrite Hwf.
Qed.

Lemma Log_wf (w w' : World) (a : addr)
    (level : LogLevel.t) (message : string) (console : bool) :
  wf_world w = true -> Log w a level message console = Returns tt w' ->
  wf_world w' = true.
Proof.
  intros Hwf Hlog. unfold wf_world. by rewrite (Log_loggers _ _ _ _ _ _ Hlog).
Qed.

(** The object at address [a] of a concrete world [w], computed. *)
Ltac with_logger w a k :=
  let o := eval vm_compute in (loggers w !! a) in
  match o with
  | Some ?l => k l
  end.

(** * The claims *)

(** ** C1: the severity check of one node *)

Example threshold_Warning :
  map (fun level => admits level
         (Logger.set_log_level
            (Logger.mk BaseLogger "" "" None LogFacility.Console LogLevel.Info
               (LoggingBuf.new 0 LogLevel.Info false)
               (LoggingBuf.new 0 LogLevel.Warning false)
               (LoggingBuf.new 0 LogLevel.Error false)
               (LoggingBuf.new 0 LogLevel.Critical false)
               (LoggingBuf.new 0 LogLevel.Debug false)
               (LoggingBuf.new 0 LogLevel.Info true)
               ofstream.closed false false 6 1000000%N)
            LogLevel.Warning))
      LogLevel.all
  = [true; true; true; false; false].
Proof. reflexivity. Qed.

Lemma gtb_spec (S T : LogLevel.t) :
  LogLevel.gtb S T = negb (LogLevel.to_Z S <=? LogLevel.to_Z T)%Z.
Proof. by destruct S, T. Qed.

(** C1. On a node with threshold [T], under a root whose facility is not
    [None], [Log(S, text)] goes past the severity check (to the parent's
    [Log], or to [EmitLog] when the node is the root) if and only if
    [S <= T] as numbers, Critical = 0 .. Debug = 4; otherwise it returns
    and the world is unchanged.  When moreover every node above admits
    [S], the message is emitted at the root exactly when [S <= T]. *)
Theorem C1_severity_check (w : World) (a : addr) (l : Logger.t)
    (S : LogLevel.t) (text : string) (console : bool) (sink : LogFacility.t) :
  wf_world w = true ->
  loggers w !! a = Some l ->
  GetLogFacility w a = Some sink ->
  sink <> LogFacility.None ->
  Log w a S text console =
    (if (LogLevel.to_Z S <=? LogLevel.to_Z (Logger.log_level l))%Z
     then match Logger.parent_logger l with
          | Some p => Log w p S (formatted l text)
                          (console || Logger.output_to_console l)
          | None => EmitLog w a l S (formatted l text)
                            (console || Logger.output_to_console l)
          end
     else Returns tt w)
  /\ (forall r lr,
        root w a = Some r -> loggers w !! r = Some lr ->
        forallb (admits S) (tail (path w a)) = true ->
        Log w a S text console =
          if (LogLevel.to_Z S <=? LogLevel.to_Z (Logger.log_level l))%Z
          then EmitLog w r lr S (text_after (path w a) text)
                                (console_after (path w a) console)
          else Returns tt w).
Proof.
  intros Hwf Hl Hsink Hne. split.
  - rewrite (Log_unfold w a l _ _ _ Hwf Hl), Hsink.
    rewrite LogFacility_eqb_neq by done.
    rewrite gtb_spec. by destruct (_ <=? _)%Z.
  - intros r lr Hr Hlr Hrest.
    assert (Logger.log_facility lr <> LogFacility.None) as Hfac.
    { rewrite GetLogFacility_root, Hr, Hlr in Hsink. simpl in Hsink. congruence. }
    rewrite (Log_chain w a r lr _ _ _ Hwf (lookup_lt_Some _ _ _ Hl) Hr Hlr Hfac).
    rewrite (path_unfold w a l Hwf Hl) in *. simpl in *.
    rewrite Hrest, andb_true_r. unfold admits. rewrite gtb_spec, negb_involutive.
    done.
Qed.

Lemma C1_severity_check_witness :
  exists l, loggers basic_test !! 1 = Some l /\
    Log basic_test 1 LogLevel.Info "Sample log" false =
    (if (LogLevel.to_Z LogLevel.Info <=? LogLevel.to_Z (Logger.log_level l))%Z
     then match Logger.parent_logger l with
          | Some p => Log basic_test p LogLevel.Info (formatted l "Sample log")
                          (false || Logger.output_to_console l)
          | None => EmitLog basic_test 1 l LogLevel.Info (formatted l "Sample log")
                            (false || Logger.output_to_console l)
          end
     else Returns tt basic_test).
Proof.
  with_logger basic_test 1 ltac:(fun l =>
    exists l; split; [reflexivity|];
    exact (proj1 (C1_severity_check basic_test 1 l LogLevel.Info "Sample log"
                    false LogFacility.Console eq_refl eq_refl eq_refl
                    ltac:(discriminate)))).
Defined.

(** ** C2: what the parent does with a forwarded message *)

(** C2, as stated, fails.  In [BasicTest] the child ("LTST", threshold
    Debug) accepts a Debug message and forwards it to its parent, the
    root (threshold Info, facility Console); the root's own check drops
    it, so it never reaches the root's [EmitLog]. *)
Lemma C2_parent_filters_counterexample :
  wf_world basic_test = true /\
  GetLogFacility basic_test 1 = Some LogFacility.Console /\
  Logger.parent_logger <$> loggers basic_test !! 1 = Some (Some 0) /\
  Logger.parent_logger <$> loggers basic_test !! 0 = Some None /\
  admits LogLevel.Debug <$> loggers basic_test !! 1 = Some true /\
  Log basic_test 1 LogLevel.Debug "Debug message" false = Returns tt basic_test /\
  ~ (exists lr, loggers basic_test !! 0 = Some lr /\
       Log basic_test 1 LogLevel.Debug "Debug message" false =
       EmitLog basic_test 0 lr LogLevel.Debug "[LTST] Debug message" false).
Proof.
  repeat split; try reflexivity.
  intros (lr & Hlr & H).
  with_logger basic_test 0 ltac:(fun l =>
    assert (lr = l) as -> by (apply (inj Some); rewrite <- Hlr; reflexivity)).
  vm_compute in H. discriminate H.
Qed.

(** C2, amended.  A message that a child accepts and forwards is checked
    again by the parent and by every node above it, each against its own
    threshold: under a root whose facility is not [None] it reaches the
    root's [EmitLog] if and only if every node from the parent up to the
    root admits its level, and otherwise nothing happens; in particular
    a parent whose threshold does not admit the level drops it. *)
Theorem C2_parent_applies_own_check (w : World) (a p r : addr)
    (l lp lr : Logger.t) (level : LogLevel.t) (text : string) (console : bool) :
  wf_world w = true ->
  loggers w !! a = Some l ->
  Logger.parent_logger l = Some p ->
  loggers w !! p = Some lp ->
  root w a = Some r ->
  loggers w !! r = Some lr ->
  Logger.log_facility lr <> LogFacility.None ->
  admits level l = true ->
  Log w a level text console =
    (if forallb (admits level) (path w p)
     then EmitLog w r lr level
            (text_after (path w p) (formatted l text))
            (console_after (path w p) (console || Logger.output_to_console l))
     else Returns tt w)
  /\ (admits level lp = false -> Log w a level text console = Returns tt w).
Proof.
  intros Hwf Hl Hp Hlp Hr Hlr Hfac Hadm.
  assert (Log w a level text console =
          if forallb (admits level) (path w p)
          then EmitLog w r lr level
                 (text_after (path w p) (formatted l text))
                 (console_after (path w p)
                    (console || Logger.output_to_console l))
          else Returns tt w) as Heq.
  { rewrite (Log_chain w a r lr _ _ _ Hwf (lookup_lt_Some _ _ _ Hl) Hr Hlr Hfac).
    rewrite (path_unfold w a l Hwf Hl), Hp. simpl. by rewrite Hadm. }
  split; [exact Heq|].
  intros Hrej. rewrite Heq, (path_unfold w p lp Hwf Hlp). simpl.
  by rewrite Hrej.
Qed.

Lemma C2_parent_applies_own_check_witness :
  Log basic_test 1 LogLevel.Critical "Critical message" false =
  Returns tt
    (set_callback_calls basic_test
       [mkCallback 0 LogLevel.Critical "[LTST] Critical message" false]).
Proof.
  with_logger basic_test 1 ltac:(fun l =>
  with_logger basic_test 0 ltac:(fun lr =>
    rewrite (proj1 (C2_parent_applies_own_check basic_test 1 0 0 l lr lr
                      LogLevel.Critical "Critical message" false
                      eq_refl eq_refl eq_refl eq_refl eq_refl eq_refl
                      ltac:(discriminate) eq_refl)))).
  reflexivity.
Defined.

(** ** C7: a root whose facility is None *)

(** C7. From any node of a tree, [Log] first asks for the facility of the
    root, reached through the parent links; when that is [None] the call
    returns at once and the world (sinks, callback, every object) is as
    it was.  The node's own [log_facility] field is not consulted. *)
Theorem C7_root_None_no_effect (w : World) (a r : addr) (lr : Logger.t)
    (level : LogLevel.t) (text : string) (console : bool) :
  wf_world w = true ->
  a < length (loggers w) ->
  root w a = Some r ->
  loggers w !! r = Some lr ->
  Logger.log_facility lr = LogFacility.None ->
  GetLogFacility w a = Some LogFacility.None /\
  Log w a level text console = Returns tt w.
Proof.
  intros Hwf Ha Hr Hlr Hnone.
  assert (GetLogFacility w a = Some LogFacility.None) as Hfac.
  { rewrite GetLogFacility_root, Hr, Hlr. simpl. by rewrite Hnone. }
  split; [exact Hfac|].
  by apply (Log_sink_None w a r lr).
Qed.

Lemma C7_root_None_no_effect_witness :
  GetLogFacility silenced 1 = Some LogFacility.None /\
  Log silenced 1 LogLevel.Critical "Critical message" true = Returns tt silenced.
Proof.
  with_logger silenced 0 ltac:(fun lr =>
    apply (C7_root_None_no_effect silenced 1 0 lr LogLevel.Critical
             "Critical message" true eq_refl);
    [vm_compute; lia|reflexivity|reflexivity|reflexivity]).
Defined.

(** ** C8: component labels *)

Example three_levels_labels :
  text_after (path three_levels 2) "handshake done" = "[NET] [TLS] handshake done".
Proof. reflexivity. Qed.

Lemma formatted_spec (l : Logger.t) (text : string) :
  formatted l text =
  if decide (Logger.component_name l = "") then text
  else "[" ++ Logger.component_name l ++ "] " ++ text.
Proof.
  unfold formatted. destruct (Logger.component_name l) as [|c s]; done.
Qed.

(** C8. A message that every node admits arrives at the root's [EmitLog]
    with the labels of all the nodes on its way in front of it: each hop
    with a non-empty label puts "[label] " before the text it received,
    and a hop without a label hands the text on unchanged.  A root
    without a label and a child "LTST" logging "hello" emit exactly
    "[LTST] hello". *)
Theorem C8_label_prefix (w : World) (a r : addr) (lr : Logger.t)
    (level : LogLevel.t) (text : string) (console : bool) :
  wf_world w = true ->
  a < length (loggers w) ->
  root w a = Some r ->
  loggers w !! r = Some lr ->
  Logger.log_facility lr <> LogFacility.None ->
  forallb (admits level) (path w a) = true ->
  Log w a level text console =
    EmitLog w r lr level (text_after (path w a) text)
                         (console_after (path w a) console)
  /\ (forall hop rest t,
        text_after (hop :: rest) t =
        text_after rest
          (if decide (Logger.component_name hop = "") then t
           else "[" ++ Logger.component_name hop ++ "] " ++ t))
  /\ Log custom_test 1 LogLevel.Info "hello" false =
     Returns tt (set_callback_calls custom_test
                   [mkCallback 0 LogLevel.Info "[LTST] hello" false]).
Proof.
  intros Hwf Ha Hr Hlr Hfac Hadm. repeat split.
  - by rewrite (Log_chain w a r lr _ _ _ Hwf Ha Hr Hlr Hfac), Hadm.
  - intros hop rest t. simpl. by rewrite formatted_spec.
Qed.

Lemma C8_label_prefix_witness :
  Log three_levels 2 LogLevel.Warning "retry" false =
  Returns tt
    (set_clog three_levels
       ("2024-05-17T10:11:12.123456 [WARNING] [NET] [TLS] retry" ++ newline)).
Proof.
  with_logger three_levels 0 ltac:(fun lr =>
    rewrite (proj1 (C8_label_prefix three_levels 2 0 lr LogLevel.Warning
                      "retry" false eq_refl ltac:(vm_compute; lia)
                      eq_refl eq_refl ltac:(discriminate) eq_refl))).
  reflexivity.
Defined.

(** ** C9: which accessors delegate *)

(** C9. On a child, [GetLogFacility] is the call on the parent, and so
    the [log_facility] of the root at the end of the parent links, while
    [GetLogLevel] is the child's own [log_level]; neither the child's own
    [log_facility] nor any ancestor's [log_level] matters. *)
Theorem C9_accessors (w : World) (a p : addr) (l : Logger.t) :
  wf_world w = true ->
  loggers w !! a = Some l ->
  Logger.parent_logger l = Some p ->
  GetLogFacility w a = GetLogFacility w p /\
  (exists r lr, root w a = Some r /\ r < a /\ loggers w !! r = Some lr /\
                Logger.parent_logger lr = None /\
                GetLogFacility w a = Some (Logger.log_facility lr)) /\
  GetLogLevel w a = Some (Logger.log_level l).
Proof.
  intros Hwf Hl Hp. repeat split.
  - by rewrite (GetLogFacility_unfold w a l Hwf Hl), Hp.
  - pose proof (wf_parent_lt w a p l Hwf Hl Hp) as Hlt.
    pose proof (lookup_lt_Some _ _ _ Hl) as Ha.
    destruct (root_exists w p Hwf ltac:(lia)) as (r & lr & Hr & Hle & Hlr & Hnone).
    exists r, lr. rewrite GetLogFacility_root, (root_unfold w a l Hwf Hl), Hp, Hr, Hlr.
    repeat split; try done. lia.
  - unfold GetLogLevel. by rewrite Hl.
Qed.

Lemma C9_accessors_witness :
  GetLogFacility basic_test 1 = GetLogFacility basic_test 0 /\
  (exists r lr, root basic_test 1 = Some r /\ r < 1 /\
                loggers basic_test !! r = Some lr /\
                Logger.parent_logger lr = None /\
                GetLogFacility basic_test 1 = Some (Logger.log_facility lr)) /\
  GetLogLevel basic_test 1 = Some LogLevel.Debug.
Proof.
  with_logger basic_test 1 ltac:(fun l =>
    exact (C9_accessors basic_test 1 0 l eq_refl eq_refl eq_refl)).
Defined.

(** ** C10: construction *)

Lemma GetLogFacility_new_root (ls : list Logger.t) (l : Logger.t) (w : World)
    (facility : LogFacility.t) :
  loggers w = (ls ++ [l])%list -> Logger.parent_logger l = None ->
  Logger.log_facility l = facility ->
  GetLogFacility w (length ls) = Some facility.
Proof.
  intros Hw Hroot <-. unfold GetLogFacility. rewrite Hw, length_app. simpl.
  rewrite Nat.add_1_r. simpl. rewrite Hw, list_lookup_middle by done.
  by rewrite Hroot.
Qed.

(** C10. A root logger, as every constructor without a parent builds it,
    has facility Console, threshold Info and timestamps with 6 digits
    modulo 1,000,000, so [IsDebugging()] is false on it; a child starts
    with what its parent answers to [GetLogLevel()] and [IsColorized()]
    when it is constructed, and keeps that threshold when the parent's is
    changed afterwards. *)
Theorem C10_construction (w : World) (cls : LoggerClass)
    (process_name component_name : string) (output_to_console : bool) :
  let this := length (loggers w) in
  (exists w' l,
     Logger_init w cls process_name component_name None output_to_console
       = Returns this w' /\
     loggers w' = (loggers w ++ [l])%list /\
     Logger.parent_logger l = None /\
     Logger.log_facility l = LogFacility.Console /\
     Logger.log_level l = LogLevel.Info /\
     Logger.time_digits l = 6 /\
     Logger.time_modulo l = 1000000%N /\
     GetLogFacility w' this = Some LogFacility.Console /\
     GetLogLevel w' this = Some LogLevel.Info /\
     IsDebugging w' this = Some false)
  /\ (forall (p : addr) (threshold : LogLevel.t) (colorized : bool),
        GetLogLevel w p = Some threshold ->
        IsColorized w p = Some colorized ->
        exists w' l,
          Logger_init w cls process_name component_name (Some p)
                      output_to_console = Returns this w' /\
          loggers w' = (loggers w ++ [l])%list /\
          Logger.parent_logger l = Some p /\
          Logger.log_level l = threshold /\
          Logger.colorize l = colorized /\
          GetLogLevel w' this = Some threshold /\
          forall level',
            exists w'', SetLogLevel w' p level' = Returns tt w'' /\
                        GetLogLevel w'' p = Some level' /\
                        GetLogLevel w'' this = Some threshold).
Proof.
  intros this. split.
  - eexists _, _. split; [reflexivity|]. split; [reflexivity|].
    repeat split.
    + eapply (GetLogFacility_new_root (loggers w)); reflexivity.
    + unfold GetLogLevel. simpl. by rewrite list_lookup_middle.
    + unfold IsDebugging, GetLogLevel. simpl. by rewrite list_lookup_middle.
  - intros p threshold colorized Hlevel Hcolor.
    unfold Logger_init. rewrite Hlevel, Hcolor.
    eexists _, _. split; [reflexivity|]. split; [reflexivity|].
    assert (exists lp, loggers w !! p = Some lp) as [lp Hlp].
    { unfold GetLogLevel in Hlevel. destruct (loggers w !! p); [eauto|done]. }
    pose proof (lookup_lt_Some _ _ _ Hlp) as Hp.
    repeat split.
    + unfold GetLogLevel. simpl. by rewrite list_lookup_middle.
    + intros level'. unfold SetLogLevel, GetLogLevel, modify. simpl.
      rewrite (lookup_app_l_Some _ _ _ _ Hlp).
      eexists. split; [reflexivity|]. simpl. split.
      * by rewrite list_lookup_alter_eq, (lookup_app_l_Some _ _ _ _ Hlp).
      * rewrite list_lookup_alter_ne by (fold this; lia).
        by rewrite list_lookup_middle.
Qed.

Lemma C10_construction_witness :
  exists w' l,
    Logger_new_child basic_test "CHLD" (Some 1) false = Returns 2 w' /\
    loggers w' = (loggers basic_test ++ [l])%list /\
    Logger.parent_logger l = Some 1 /\
    Logger.log_level l = LogLevel.Debug /\
    Logger.colorize l = false /\
    GetLogLevel w' 2 = Some LogLevel.Debug /\
    forall level',
      exists w'', SetLogLevel w' 1 level' = Returns tt w'' /\
                  GetLogLevel w'' 1 = Some level' /\
                  GetLogLevel w'' 2 = Some LogLevel.Debug.
Proof.
  exact (proj2 (C10_construction basic_test BaseLogger "" "CHLD" false)
           1 LogLevel.Debug false eq_refl eq_refl).
Defined.

(** ** C5: SetLogFacility *)

Example LogFacility_test :
  (GetLogFacility
     (world_after logger_test
        (SetLogFacility logger_test 0 LogFacility.File "logger_test_1")) 0,
   files (world_after logger_test
            (SetLogFacility logger_test 0 LogFacility.File "logger_test_1"))
     !! "logger_test_1")
  = (Some LogFacility.File, Some EmptyString).
Proof. reflexivity. Qed.

Lemma file_inv_closed (l : Logger.t) :
  file_inv l = true -> Logger.log_facility l <> LogFacility.File ->
  ofstream.is_open (Logger.log_file l) = false.
Proof.
  unfold file_inv. intros H Hne. apply bool_decide_eq_true in H.
  destruct (ofstream.is_open (Logger.log_file l)); [|done].
  exfalso. by apply Hne, H.
Qed.

(** C5. [SetLogFacility] changes nothing on a node that has a parent, and
    nothing on a root that already has the requested facility.  On a root
    with another facility it first releases what the old one held
    ([closelog()] after Syslog, the log file closed after File); when the
    new facility is File and the file cannot be opened for appending, it
    writes an error line naming the file to the console (std::cerr) and
    stores None, not File; in the other cases it stores the facility
    asked for.  The log file stays open only under facility File. *)
Theorem C5_SetLogFacility (w : World) (a : addr) (l : Logger.t)
    (facility : LogFacility.t) (filename : string) :
  loggers w !! a = Some l ->
  (Logger.parent_logger l <> None ->
   SetLogFacility w a facility filename = Returns tt w)
  /\ (Logger.parent_logger l = None -> Logger.log_facility l = facility ->
      SetLogFacility w a facility filename = Returns tt w)
  /\ (Logger.parent_logger l = None -> Logger.log_facility l <> facility ->
      file_inv l = true ->
      exists w' l',
        SetLogFacility w a facility filename = Returns tt w' /\
        loggers w' !! a = Some l' /\
        (Logger.log_facility l = LogFacility.Syslog -> syslog_enabled w = true ->
         syslog_calls w' = (syslog_calls w ++ [sys_closelog])%list) /\
        (Logger.log_facility l = LogFacility.File ->
         ofstream.is_open (Logger.log_file l') = false) /\
        (facility = LogFacility.File -> fs_can_open w filename = false ->
         Logger.log_facility l' = LogFacility.None /\
         ofstream.is_open (Logger.log_file l') = false /\
         cerr w' = cerr w ++ open_error filename /\
         clog w' = clog w /\ files w' = files w) /\
        (facility = LogFacility.File -> fs_can_open w filename = true ->
         Logger.log_facility l' = LogFacility.File /\
         Logger.log_file l' = ofstream.mk true filename /\
         cerr w' = cerr w) /\
        (facility <> LogFacility.File -> Logger.log_facility l' = facility) /\
        file_inv l' = true).
Proof.
  intros Hl. unfold SetLogFacility. rewrite Hl. repeat split.
  - by destruct (Logger.parent_logger l).
  - intros -> <-.
    by rewrite (proj2 (LogFacility_eqb_eq _ _) eq_refl).
  - intros -> Hne Hinv. rewrite (LogFacility_eqb_neq _ _ Hne). simpl.
    destruct (decide (facility = LogFacility.File)) as [->|Hnf].
    + pose proof (file_inv_closed l Hinv Hne) as Hclosed.
      assert (LogFacility.eqb (Logger.log_facility l) LogFacility.File = false)
        as -> by by apply LogFacility_eqb_neq.
      simpl. unfold ofstream_open. rewrite Hclosed.
      destruct (Logger.log_facility l) eqn:Hprev; try done;
        unfold closelog;
        destruct (fs_can_open w filename) eqn:Hopen;
        destruct (syslog_enabled w) eqn:Hsys; simpl; rewrite ?Hopen; simpl;
        rewrite ?Hclosed; simpl;
        eexists _, _; (split; [reflexivity|]);
        unfold modify; simpl; rewrite list_lookup_alter_eq, Hl; simpl;
        (split; [reflexivity|]); simpl; rewrite ?Hclosed;
        repeat split; intros; try congruence;
        apply bool_decide_eq_true_2; simpl; rewrite ?Hclosed; intros; congruence.
    + assert (LogFacility.eqb facility LogFacility.File = false)
        as -> by by apply LogFacility_eqb_neq.
      pose proof (file_inv_closed l Hinv) as Hclosed.
      destruct (Logger.log_facility l) eqn:Hprev, facility; try done;
        unfold closelog, openlog;
        destruct (syslog_enabled w) eqn:Hsys; simpl; rewrite ?Hsys; simpl;
        eexists _, _; (split; [reflexivity|]);
        unfold modify; simpl; rewrite list_lookup_alter_eq, Hl; simpl;
        (split; [reflexivity|]); simpl;
        repeat split; intros; try congruence;
        apply bool_decide_eq_true_2; simpl; rewrite ?Hclosed by done;
        intros; congruence.
Qed.

Lemma C5_SetLogFacility_witness :
  exists w' l',
    SetLogFacility logger_test 0 LogFacility.File "" = Returns tt w' /\
    loggers w' !! 0 = Some l' /\
    Logger.log_facility l' = LogFacility.None /\
    ofstream.is_open (Logger.log_file l') = false /\
    cerr w' = "ERROR: Logger unable to open log file for writing: " ++ newline.
Proof.
  with_logger logger_test 0 ltac:(fun l =>
    destruct (proj2 (proj2 (C5_SetLogFacility logger_test 0 l LogFacility.File
                              "" eq_refl))
                eq_refl ltac:(discriminate) eq_refl)
      as (w' & l' & Hset & Hl' & _ & _ & Hfail & _ & _ & _)).
  destruct (Hfail eq_refl eq_refl) as (Hnone & Hclosed & Hcerr & _).
  exists w', l'. repeat split; assumption.
Defined.

(** ** C6: SetLogLevel from a string *)

Example SetLogLevelString_test :
  let w1 := world_after logger_test (SetLogLevel_string logger_test 0 "Warning") in
  let w2 := world_after w1 (SetLogLevel_string w1 0 "foobar") in
  GetLogLevel w1 0 = Some LogLevel.Warning /\
  GetLogLevel w2 0 = Some LogLevel.Info /\
  clog w2 = "2024-05-17T10:11:12.123456 [ERROR] Unknown log level " ++ dquote
            ++ "foobar" ++ dquote ++ "; setting log level to " ++ dquote
            ++ "INFO" ++ dquote ++ newline.
Proof. repeat split. Qed.

(** C6, as stated, fails.  On a root with facility Console and threshold
    Critical, [SetLogLevel("foobar")] sets the threshold to Info and no
    message is logged: the Error message is handed to [Log] while the
    threshold is still Critical, and is dropped there. *)
Lemma C6_no_message_counterexample :
  (forall level, transform toupper "foobar" <> LogLevelString level) /\
  GetLogFacility critical_only 0 = Some LogFacility.Console /\
  GetLogLevel critical_only 0 = Some LogLevel.Critical /\
  exists w',
    SetLogLevel_string critical_only 0 "foobar" = Returns tt w' /\
    GetLogLevel w' 0 = Some LogLevel.Info /\
    clog w' = clog critical_only /\
    cerr w' = cerr critical_only /\
    files w' = files critical_only /\
    syslog_calls w' = syslog_calls critical_only /\
    callback_calls w' = callback_calls critical_only.
Proof.
  split; [intros []; discriminate|].
  split; [reflexivity|]. split; [reflexivity|].
  eexists. split; [reflexivity|]. repeat split.
Qed.

Lemma console_after_true (hops : list Logger.t) : console_after hops true = true.
Proof. unfold console_after. induction hops as [|h hops IH]; [done|exact IH]. Qed.

Lemma not_name (s : string) (level : LogLevel.t) :
  s <> LogLevelString level -> String.eqb s (LogLevelString level) = false.
Proof. apply String.eqb_neq. Qed.

Lemma SetLogLevel_returns (w : World) (a : addr) (l : Logger.t)
    (level : LogLevel.t) :
  loggers w !! a = Some l ->
  SetLogLevel w a level =
    Returns tt (modify w a (fun this => Logger.set_log_level this level)) /\
  GetLogLevel (modify w a (fun this => Logger.set_log_level this level)) a
    = Some level.
Proof.
  intros Hl. unfold SetLogLevel, GetLogLevel, modify. rewrite Hl. simpl.
  by rewrite list_lookup_alter_eq, Hl.
Qed.

(** C6, amended.  The string is compared in upper case: each of the five
    names, in any mix of cases, sets the corresponding threshold.  For
    any other string, [Log] is called once on this node with severity
    Error and the console flag set, while the old threshold is still in
    force, and then the threshold becomes Info.  So the message is
    emitted, once, at the root exactly when the root's facility is not
    None and the old threshold of this node and the threshold of every
    node above admit Error; otherwise no message is logged. *)
Theorem C6_SetLogLevel_string (w : World) (a : addr) (l : Logger.t) (s : string) :
  wf_world w = true ->
  loggers w !! a = Some l ->
  (forall level, transform toupper s = LogLevelString level ->
     SetLogLevel_string w a s = SetLogLevel w a level /\
     GetLogLevel (world_after w (SetLogLevel_string w a s)) a = Some level)
  /\ ((forall level, transform toupper s <> LogLevelString level) ->
      SetLogLevel_string w a s =
        bind (Log w a LogLevel.Error (level_error s) true)
             (fun _ w1 => SetLogLevel w1 a LogLevel.Info)
      /\ (forall w1,
            Log w a LogLevel.Error (level_error s) true = Returns tt w1 ->
            SetLogLevel_string w a s =
              Returns tt (modify w1 a (fun this =>
                            Logger.set_log_level this LogLevel.Info)) /\
            GetLogLevel (world_after w (SetLogLevel_string w a s)) a
              = Some LogLevel.Info)
      /\ (forall r lr,
            root w a = Some r -> loggers w !! r = Some lr ->
            Log w a LogLevel.Error (level_error s) true =
              if negb (LogFacility.eqb (Logger.log_facility lr) LogFacility.None)
                 && forallb (admits LogLevel.Error) (path w a)
              then EmitLog w r lr LogLevel.Error
                     (text_after (path w a) (level_error s)) true
              else Returns tt w)).
Proof.
  intros Hwf Hl. split.
  - intros level Hname.
    assert (SetLogLevel_string w a s = SetLogLevel w a level) as Heq.
    { unfold SetLogLevel_string. rewrite Hname. by destruct level. }
    split; [exact Heq|].
    rewrite Heq. destruct (SetLogLevel_returns w a l level Hl) as [-> Hget].
    exact Hget.
  - intros Hunknown.
    assert (SetLogLevel_string w a s =
            bind (Log w a LogLevel.Error (level_error s) true)
                 (fun _ w1 => SetLogLevel w1 a LogLevel.Info)) as Heq.
    { pose proof (fun level => not_name _ level (Hunknown level)) as Hno.
      pose proof (Hno LogLevel.Info) as H1. pose proof (Hno LogLevel.Error) as H2.
      pose proof (Hno LogLevel.Warning) as H3.
      pose proof (Hno LogLevel.Critical) as H4.
      pose proof (Hno LogLevel.Debug) as H5. simpl in H1, H2, H3, H4, H5.
      unfold SetLogLevel_string. by rewrite H1, H2, H3, H4, H5. }
    split; [exact Heq|]. split.
    + intros w1 Hlog. rewrite Heq, Hlog. simpl.
      assert (loggers w1 !! a = Some l) as Hl1
        by by rewrite (Log_loggers _ _ _ _ _ _ Hlog).
      destruct (SetLogLevel_returns w1 a l LogLevel.Info Hl1) as [-> Hget].
      done.
    + intros r lr Hr Hlr.
      pose proof (lookup_lt_Some _ _ _ Hl) as Ha.
      rewrite (Log_cases w a r lr _ _ _ Hwf Ha Hr Hlr).
      by rewrite console_after_true.
Qed.

Lemma C6_SetLogLevel_string_witness :
  (SetLogLevel_string logger_test 0 "wArNiNg"
     = SetLogLevel logger_test 0 LogLevel.Warning /\
   GetLogLevel (world_after logger_test
                  (SetLogLevel_string logger_test 0 "wArNiNg")) 0
     = Some LogLevel.Warning)
  /\ SetLogLevel_string critical_only 0 "foobar" =
       bind (Log critical_only 0 LogLevel.Error (level_error "foobar") true)
            (fun _ w1 => SetLogLevel w1 0 LogLevel.Info).
Proof.
  split.
  - with_logger logger_test 0 ltac:(fun l =>
      exact (proj1 (C6_SetLogLevel_string logger_test 0 l "wArNiNg"
                      eq_refl eq_refl)
               LogLevel.Warning eq_refl)).
  - with_logger critical_only 0 ltac:(fun l =>
      refine (proj1 (proj2 (C6_SetLogLevel_string critical_only 0 l "foobar"
                              eq_refl eq_refl) _))).
    intros []; discriminate.
Defined.

(** ** The capture buffers *)

Lemma Logger_EmitLog_returns (w : World) (l : Logger.t)
    (level : LogLevel.t) (message : string) (console : bool) :
  Logger.log_facility l <> LogFacility.AndroidLog ->
  exists w', Logger_EmitLog w l level message console = Returns tt w'.
Proof.
  intros Hne. unfold Logger_EmitLog.
  rewrite (LogFacility_eqb_neq _ _ Hne). eauto.
Qed.

(** [Log] comes back, unless the root is a plain Logger set to AndroidLog
    (whose [EmitLog] throws on this platform). *)
Lemma Log_returns (w : World) (a : addr)
    (level : LogLevel.t) (message : string) (console : bool) :
  wf_world w = true -> a < length (loggers w) ->
  GetLogFacility w a <> Some LogFacility.AndroidLog ->
  exists w', Log w a level message console = Returns tt w'.
Proof.
  intros Hwf Ha Hfac.
  destruct (root_exists w a Hwf Ha) as (r & lr & Hr & _ & Hlr & _).
  rewrite GetLogFacility_root, Hr, Hlr in Hfac. simpl in Hfac.
  destruct (decide (Logger.log_facility lr = LogFacility.None)) as [Hn|Hn].
  - exists w. by apply (Log_sink_None w a r lr).
  - rewrite (Log_chain w a r lr _ _ _ Hwf Ha Hr Hlr Hn).
    destruct (forallb _ _); [|eauto].
    unfold EmitLog, CustomLogger_EmitLog. destruct (Logger.class lr); [|eauto].
    apply Logger_EmitLog_returns. congruence.
Qed.

Lemma buf_set_buf (l : Logger.t) (ch : Channel) (b : LoggingBuf.t) :
  Logger.buf (Logger.set_buf l ch b) ch = b.
Proof. by destruct ch. Qed.

Lemma buffer_modify_buf (w : World) (a : addr) (ch : Channel)
    (b : LoggingBuf.t) (f : LoggingBuf.t -> LoggingBuf.t) :
  buffer w a ch = Some b -> buffer (modify_buf w a ch f) a ch = Some (f b).
Proof.
  unfold buffer, modify_buf, modify. simpl. intros Hb.
  rewrite list_lookup_alter_eq.
  destruct (loggers w !! a) as [l|]; [|done]. simpl in *.
  injection Hb as <-. by rewrite buf_set_buf.
Qed.

Lemma buffer_same_loggers (w w' : World) (a : addr) (ch : Channel) :
  loggers w' = loggers w -> buffer w' a ch = buffer w a ch.
Proof. unfold buffer. by intros ->. Qed.

Lemma may_enter_owner (me : thread_id) (b : LoggingBuf.t) :
  LoggingBuf.busy b = true -> LoggingBuf.owning_thread b = Some me ->
  may_enter me b = true.
Proof.
  intros Hbusy Howner. unfold may_enter. rewrite Hbusy, Howner. simpl.
  by apply bool_decide_eq_true_2.
Qed.

Lemma may_enter_other (me other : thread_id) (b : LoggingBuf.t) :
  LoggingBuf.busy b = true -> LoggingBuf.owning_thread b = Some other ->
  other <> me -> may_enter me b = false.
Proof.
  intros Hbusy Howner Hne. unfold may_enter. rewrite Hbusy, Howner. simpl.
  apply bool_decide_eq_false_2. congruence.
Qed.

(** ** C4: flush by the owner *)

Example LogStreams_flush :
  clog (world_after streaming (sync streaming 0 ch_info 1 (idle streaming)))
  = "2024-05-17T10:11:12.123456 [INFO] Test Log 1" ++ newline.
Proof. reflexivity. Qed.

(** C4. When the thread that owns a buffer flushes it, [sync] calls [Log]
    on the buffer's logger once, with the buffer's own severity, all the
    text gathered so far and the buffer's own console flag; after that
    the text is empty, the buffer is not busy and one [notify_one()] has
    been issued.  ([Log] comes back unless the root's facility is
    AndroidLog.) *)
Theorem C4_sync_by_owner (w : World) (a : addr) (ch : Channel)
    (me : thread_id) (sched : Schedule) (b : LoggingBuf.t) :
  wf_world w = true ->
  buffer w a ch = Some b ->
  LoggingBuf.busy b = true ->
  LoggingBuf.owning_thread b = Some me ->
  LoggingBuf.logger b < length (loggers w) ->
  GetLogFacility w (LoggingBuf.logger b) <> Some LogFacility.AndroidLog ->
  exists w2,
    Log w (LoggingBuf.logger b) (LoggingBuf.log_level b) (LoggingBuf.str b)
          (LoggingBuf.console b) = Returns tt w2 /\
    sync w a ch me sched =
      Returns 0%Z
        (modify_buf w2 a ch (fun b =>
           LoggingBuf.notify_one
             (LoggingBuf.set_busy (LoggingBuf.set_str b EmptyString) false))) /\
    buffer (world_after w (sync w a ch me sched)) a ch =
      Some (LoggingBuf.mk (LoggingBuf.logger b) (LoggingBuf.log_level b)
              (LoggingBuf.console b) false (Some me) EmptyString
              (S (LoggingBuf.signal b))).
Proof.
  intros Hwf Hb Hbusy Howner Hlogger Hfac.
  destruct (Log_returns w (LoggingBuf.logger b) (LoggingBuf.log_level b)
              (LoggingBuf.str b) (LoggingBuf.console b) Hwf Hlogger Hfac)
    as [w2 Hlog].
  exists w2. split; [exact Hlog|].
  assert (sync w a ch me sched =
          Returns 0%Z
            (modify_buf w2 a ch (fun b =>
               LoggingBuf.notify_one
                 (LoggingBuf.set_busy (LoggingBuf.set_str b EmptyString)
                                      false)))) as Hsync.
  { unfold sync, thread_sync, wait_for, buffer_free.
    rewrite Hb, (may_enter_owner me b Hbusy Howner), Hb. simpl.
    rewrite Hb, Hbusy. simpl. by rewrite Hb, Hlog. }
  split; [exact Hsync|].
  rewrite Hsync. simpl.
  assert (buffer w2 a ch = Some b) as Hb2.
  { by rewrite (buffer_same_loggers w w2 a ch (Log_loggers _ _ _ _ _ _ Hlog)). }
  rewrite (buffer_modify_buf w2 a ch b _ Hb2). unfold LoggingBuf.notify_one.
  simpl. by rewrite Howner.
Qed.

Lemma C4_sync_by_owner_witness :
  exists w2,
    Log streaming 0 LogLevel.Info "Test Log 1" false = Returns tt w2 /\
    clog w2 = "2024-05-17T10:11:12.123456 [INFO] Test Log 1" ++ newline /\
    buffer (world_after streaming (sync streaming 0 ch_info 1 (idle streaming)))
           0 ch_info
    = Some (LoggingBuf.mk 0 LogLevel.Info false false (Some 1) EmptyString 1).
Proof.
  destruct (C4_sync_by_owner streaming 0 ch_info 1 (idle streaming)
              (LoggingBuf.mk 0 LogLevel.Info false true (Some 1) "Test Log 1" 0)
              eq_refl eq_refl eq_refl eq_refl ltac:(vm_compute; lia)
              ltac:(discriminate))
    as (w2 & Hlog & _ & Hbuf).
  exists w2. split; [exact Hlog|]. split; [|exact Hbuf].
  simpl in Hlog. vm_compute in Hlog. injection Hlog as <-. reflexivity.
Defined.

(** ** C3: a buffer that is not released *)

Lemma wait_wakeups_bounded (rel_time : nat) (pred : World -> bool)
    (wakeups : list (nat * World)) (at_deadline : World) :
  (wait_wakeups rel_time pred wakeups at_deadline).1.2 <= rel_time.
Proof.
  induction wakeups as [|[elapsed w'] rest IH]; simpl; [lia|].
  destruct (rel_time <=? elapsed)%nat eqn:Hle; simpl; [lia|].
  destruct (pred w'); simpl; [|exact IH].
  apply Nat.leb_gt in Hle. lia.
Qed.

Lemma wait_for_bounded (rel_time : nat) (pred : World -> bool)
    (w : World) (sched : Schedule) :
  (wait_for rel_time pred w sched).1.2 <= rel_time.
Proof.
  unfold wait_for. destruct (pred w); simpl; [lia|].
  apply wait_wakeups_bounded.
Qed.

Lemma wait_wakeups_never (rel_time : nat) (pred : World -> bool)
    (wakeups : list (nat * World)) (at_deadline : World) :
  Forall (fun wakeup => pred wakeup.2 = false) wakeups ->
  pred at_deadline = false ->
  wait_wakeups rel_time pred wakeups at_deadline = (false, rel_time, at_deadline).
Proof.
  intros Hall Hlast.
  induction Hall as [|[elapsed w'] rest Hw' _ IH]; simpl; [by rewrite Hlast|].
  simpl in Hw'. rewrite Hw', IH, Hlast. by destruct (rel_time <=? elapsed)%nat.
Qed.

Example one_second : seconds 1 = 1000.
Proof. reflexivity. Qed.

(** Thread 1 flushes 400 ms into the wait of thread 2: the wait ends there. *)
Example released_in_time :
  wait_for (seconds 1) (buffer_free 0 ch_info 2) streaming
           (mkSchedule [(400, flushed)] flushed)
  = (true, 400, flushed).
Proof. reflexivity. Qed.

(** C3. A thread [U] that calls [thread_sync] on a buffer owned by another
    thread [T] waits on the condition variable, for one second at most
    whatever the other threads do.  When the buffer is still owned by [T]
    at every wake-up and when the second is over, the wait ends after
    that second with [false]; [thread_sync] then calls [Log] on the
    buffer's logger with severity Error and the text about the missing
    std::flush, clears the busy flag, and, the buffer being idle now,
    marks it busy again with [U] as its owner.  ([Log] comes back unless
    the root's facility is AndroidLog; what it does with the message is
    what it does with any Error message of that node.) *)
Theorem C3_timeout_takeover (w : World) (a : addr) (ch : Channel)
    (T U : thread_id) (sched : Schedule) (b : LoggingBuf.t) :
  wf_world (at_deadline sched) = true ->
  buffer_free a ch U w = false ->
  Forall (fun wakeup => buffer_free a ch U wakeup.2 = false) (wakeups sched) ->
  buffer (at_deadline sched) a ch = Some b ->
  LoggingBuf.busy b = true ->
  LoggingBuf.owning_thread b = Some T ->
  T <> U ->
  LoggingBuf.logger b < length (loggers (at_deadline sched)) ->
  GetLogFacility (at_deadline sched) (LoggingBuf.logger b)
    <> Some LogFacility.AndroidLog ->
  (forall w0 sched0,
     (wait_for (seconds 1) (buffer_free a ch U) w0 sched0).1.2 <= 1000)
  /\ wait_for (seconds 1) (buffer_free a ch U) w sched
     = (false, 1000, at_deadline sched)
  /\ exists w2,
       Log (at_deadline sched) (LoggingBuf.logger b) LogLevel.Error
           "Somebody forgot to call std::flush!?" false = Returns tt w2 /\
       thread_sync w a ch U sched =
         Returns tt
           (modify_buf
              (modify_buf w2 a ch (fun b => LoggingBuf.set_busy b false))
              a ch
              (fun b => LoggingBuf.set_owning_thread
                          (LoggingBuf.set_busy b true) (Some U))) /\
       buffer (world_after w (thread_sync w a ch U sched)) a ch =
         Some (LoggingBuf.mk (LoggingBuf.logger b) (LoggingBuf.log_level b)
                 (LoggingBuf.console b) true (Some U) (LoggingBuf.str b)
                 (LoggingBuf.signal b)) /\
       forall r lr,
         root (at_deadline sched) (LoggingBuf.logger b) = Some r ->
         loggers (at_deadline sched) !! r = Some lr ->
         Returns tt w2 =
           if negb (LogFacility.eqb (Logger.log_facility lr) LogFacility.None)
              && forallb (admits LogLevel.Error)
                         (path (at_deadline sched) (LoggingBuf.logger b))
           then EmitLog (at_deadline sched) r lr LogLevel.Error
                  (text_after (path (at_deadline sched) (LoggingBuf.logger b))
                              "Somebody forgot to call std::flush!?")
                  (console_after (path (at_deadline sched) (LoggingBuf.logger b))
                                 false)
           else Returns tt (at_deadline sched).
Proof.
  intros Hwf Hnow Hwake Hb Hbusy Howner HTU Hlogger Hfac.
  split; [intros w0 sched0; apply wait_for_bounded|].
  assert (buffer_free a ch U (at_deadline sched) = false) as Hlast.
  { unfold buffer_free. rewrite Hb. by apply (may_enter_other U T). }
  assert (wait_for (seconds 1) (buffer_free a ch U) w sched
          = (false, 1000, at_deadline sched)) as Hwait.
  { unfold wait_for. rewrite Hnow. by apply wait_wakeups_never. }
  split; [exact Hwait|].
  destruct (Log_returns (at_deadline sched) (LoggingBuf.logger b)
              LogLevel.Error forgot_flush false Hwf Hlogger Hfac) as [w2 Hlog].
  exists w2. split; [exact Hlog|].
  assert (buffer w2 a ch = Some b) as Hb2.
  { by rewrite (buffer_same_loggers _ w2 a ch (Log_loggers _ _ _ _ _ _ Hlog)). }
  pose proof (buffer_modify_buf w2 a ch b
                (fun b => LoggingBuf.set_busy b false) Hb2) as Hb3.
  assert (thread_sync w a ch U sched =
          Returns tt
            (modify_buf
               (modify_buf w2 a ch (fun b => LoggingBuf.set_busy b false))
               a ch
               (fun b => LoggingBuf.set_owning_thread
                           (LoggingBuf.set_busy b true) (Some U)))) as Hsync.
  { unfold thread_sync. rewrite Hwait, Hb. simpl. rewrite Hlog. simpl.
    by rewrite Hb3. }
  split; [exact Hsync|]. split.
  - rewrite Hsync. simpl.
    by rewrite (buffer_modify_buf _ a ch _ _ Hb3).
  - intros r lr Hr Hlr. rewrite <- Hlog.
    by apply Log_cases.
Qed.

Lemma C3_timeout_takeover_witness :
  wait_for (seconds 1) (buffer_free 0 ch_info 2) streaming never_flushed
    = (false, 1000, streaming)
  /\ clog (world_after streaming
             (thread_sync streaming 0 ch_info 2 never_flushed))
     = "2024-05-17T10:11:12.123456 [ERROR] Somebody forgot to call std::flush!?"
       ++ newline
  /\ buffer (world_after streaming
               (thread_sync streaming 0 ch_info 2 never_flushed)) 0 ch_info
     = Some (LoggingBuf.mk 0 LogLevel.Info false true (Some 2) "Test Log 1" 0).
Proof.
  destruct (C3_timeout_takeover streaming 0 ch_info 1 2 never_flushed
              (LoggingBuf.mk 0 LogLevel.Info false true (Some 1) "Test Log 1" 0)
              eq_refl eq_refl
              ltac:(repeat constructor)
              eq_refl eq_refl eq_refl
              ltac:(discriminate) ltac:(vm_compute; lia) ltac:(discriminate))
    as (_ & Hwait & w2 & _ & _ & Hbuf & _).
  split; [exact Hwait|]. split; [reflexivity|exact Hbuf].
Defined.

(** * Further properties *)

(** ** What [Log] writes, and where *)

(** [Log] changes no logger object and never writes to std::cerr: whether
    it returns or throws, the store and std::cerr are as before. *)
Theorem Log_frame (w : World) (a : addr)
    (level : LogLevel.t) (message : string) (console : bool) :
  match Log w a level message console with
  | Returns _ w' | Throws _ w' => loggers w' = loggers w /\ cerr w' = cerr w
  | Stuck => True
  end.
Proof.
  unfold Log. generalize (length (loggers w)) as fuel.
  intros fuel. revert a message console.
  induction fuel as [|fuel IH]; intros a message console; [done|]. simpl.
  destruct (loggers w !! a) as [l|]; [|done].
  destruct (GetLogFacility w a) as [facility|]; [|done].
  destruct (LogFacility.eqb facility LogFacility.None); [done|].
  destruct (LogLevel.gtb level (Logger.log_level l)); [done|].
  destruct (Logger.parent_logger l) as [p|]; [apply IH|].
  unfold EmitLog, CustomLogger_EmitLog, Logger_EmitLog, syslog, ofstream_write.
  destruct (Logger.class l); [|done].
  destruct (Logger.log_facility l), (console || Logger.output_to_console l),
    (syslog_enabled w), (ofstream.is_open (Logger.log_file l)); done.
Qed.




(** With a CustomLogger at the root, logging never reaches std::clog, the
    log files or syslog, whatever the facility stored: an admitted
    message under a facility other than None is handed to the callback,
    once, with its labels and console flag, and the call returns;
    anything else leaves the world as it was. *)
Theorem Log_custom_root (w : World) (a r : addr) (lr : Logger.t)
    (level : LogLevel.t) (text : string) (console : bool) :
  wf_world w = true ->
  a < length (loggers w) ->
  root w a = Some r ->
  loggers w !! r = Some lr ->
  Logger.class lr = CustomLogger ->
  Log w a level text console =
  Returns tt
    (if negb (LogFacility.eqb (Logger.log_facility lr) LogFacility.None)
        && forallb (admits level) (path w a)
     then set_callback_calls w
            (callback_calls w ++
             [mkCallback r level (text_after (path w a) text)
                         (console_after (path w a) console)])
     else w).
Proof.
  intros Hwf Ha Hr Hlr Hclass.
  rewrite (Log_cases w a r lr _ _ _ Hwf Ha Hr Hlr).
  destruct (_ && _); [|done].
  unfold EmitLog. by rewrite Hclass.
Qed.

Lemma Log_custom_root_witness :
  Log custom_test 1 LogLevel.Critical "Critical message" true =
  Returns tt
    (set_callback_calls custom_test
       [mkCallback 0 LogLevel.Critical "[LTST] Critical message" true]).
Proof.
  with_logger custom_test 0 ltac:(fun lr =>
    exact (Log_custom_root custom_test 1 0 lr LogLevel.Critical
             "Critical message" true eq_refl ltac:(vm_compute; lia)
             eq_refl eq_refl eq_refl)).
Defined.

(** [Log] leaves by an exception in one case only: the root is a plain
    Logger whose facility is AndroidLog and every node on the way admits
    the message; the exception then is the std::runtime_error of
    [EmitLog].  In every other case it returns. *)
Theorem Log_throws_iff (w : World) (a r : addr) (lr : Logger.t)
    (level : LogLevel.t) (text : string) (console : bool) :
  wf_world w = true ->
  a < length (loggers w) ->
  root w a = Some r ->
  loggers w !! r = Some lr ->
  ((exists what w', Log w a level text console = Throws what w') <->
   Logger.class lr = BaseLogger /\
   Logger.log_facility lr = LogFacility.AndroidLog /\
   forallb (admits level) (path w a) = true)
  /\ (forall what w', Log w a level text console = Throws what w' ->
        what = "Android LogLevel only supported on Android platform")
  /\ ((exists w', Log w a level text console = Returns tt w') \/
      (exists what w', Log w a level text console = Throws what w')).
Proof.
  intros Hwf Ha Hr Hlr.
  rewrite (Log_cases w a r lr _ _ _ Hwf Ha Hr Hlr).
  unfold EmitLog, CustomLogger_EmitLog, Logger_EmitLog.
  destruct (Logger.class lr), (Logger.log_facility lr),
    (forallb (admits level) (path w a)); simpl;
    (split; [split; [intros (what & w' & H); try discriminate H; done
                    |intros (H1 & H2 & H3); try discriminate; eauto]|]);
    (split; [intros what w' H; try discriminate H; by injection H|]);
    eauto.
Qed.

Lemma Log_throws_iff_witness :
  exists what w',
    Log android_root 0 LogLevel.Info "hello" false = Throws what w'.
Proof.
  with_logger android_root 0 ltac:(fun lr =>
    apply (proj1 (Log_throws_iff android_root 0 0 lr LogLevel.Info "hello"
                    false eq_refl ltac:(vm_compute; lia) eq_refl eq_refl));
    repeat split).
Defined.

Lemma console_after_existsb (hops : list Logger.t) (console : bool) :
  console_after hops console = console || existsb Logger.output_to_console hops.
Proof.
  unfold console_after. revert console.
  induction hops as [|h hops IH]; intros console; simpl.
  - by rewrite orb_false_r.
  - by rewrite IH, orb_assoc.
Qed.

(** The console flag only ever rises on the way up: the root's [EmitLog]
    gets it set exactly when the caller set it or some node on the way,
    the root included, was constructed with [output_to_console]. *)
Theorem Log_console_flag (w : World) (a r : addr) (lr : Logger.t)
    (level : LogLevel.t) (text : string) (console : bool) :
  wf_world w = true ->
  a < length (loggers w) ->
  root w a = Some r ->
  loggers w !! r = Some lr ->
  Log w a level text console =
  if negb (LogFacility.eqb (Logger.log_facility lr) LogFacility.None)
     && forallb (admits level) (path w a)
  then EmitLog w r lr level (text_after (path w a) text)
         (console || existsb Logger.output_to_console (path w a))
  else Returns tt w.
Proof.
  intros Hwf Ha Hr Hlr.
  by rewrite (Log_cases w a r lr _ _ _ Hwf Ha Hr Hlr), console_after_existsb.
Qed.

Lemma Log_console_flag_witness :
  Log custom_test 1 LogLevel.Info "hello" false =
  Returns tt (set_callback_calls custom_test
                [mkCallback 0 LogLevel.Info "[LTST] hello" false]).
Proof.
  with_logger custom_test 0 ltac:(fun lr =>
    rewrite (Log_console_flag custom_test 1 0 lr LogLevel.Info "hello" false
               eq_refl ltac:(vm_compute; lia) eq_refl eq_refl)).
  reflexivity.
Defined.

(** ** Updates that leave the routing alone *)

Lemma lookup_modify (w : World) (a x : addr) (g : Logger.t -> Logger.t) :
  loggers (modify w a g) !! x =
  if decide (a = x) then g <$> loggers w !! x else loggers w !! x.
Proof.
  unfold modify. simpl. rewrite list_lookup_alter. by case_decide; subst.
Qed.

Lemma length_modify (w : World) (a : addr) (g : Logger.t -> Logger.t) :
  length (loggers (modify w a g)) = length (loggers w).
Proof. unfold modify. simpl. apply length_alter. Qed.

Lemma routing_fields (l l' : Logger.t) :
  routing l' = routing l ->
  Logger.class l' = Logger.class l /\
  Logger.component_name l' = Logger.component_name l /\
  Logger.parent_logger l' = Logger.parent_logger l /\
  Logger.log_facility l' = Logger.log_facility l /\
  Logger.log_level l' = Logger.log_level l /\
  Logger.output_to_console l' = Logger.output_to_console l.
Proof. unfold routing. intros [= ? ? ? ? ? ? ? ? ? ? ?]. done. Qed.

Lemma lookup_modify_routing (w : World) (a x : addr)
    (g : Logger.t -> Logger.t) :
  keeps_routing g ->
  match loggers w !! x with
  | Some l => exists l', loggers (modify w a g) !! x = Some l' /\
                         routing l' = routing l
  | None => loggers (modify w a g) !! x = None
  end.
Proof.
  intros Hk. rewrite lookup_modify.
  destruct (loggers w !! x) as [l|]; case_decide; simpl; eauto.
Qed.

Lemma wf_from_routing (n : nat) (ls ls' : list Logger.t) :
  Forall2 (fun l l' => routing l' = routing l) ls ls' ->
  wf_from n ls' = wf_from n ls.
Proof.
  intros H. revert n. induction H as [|l l' ls ls' Hl _ IH]; intros n; [done|].
  simpl. rewrite IH. f_equal. unfold wf_logger.
  by destruct (routing_fields l l' Hl) as (_ & _ & -> & _).
Qed.

Lemma wf_modify (w : World) (a : addr) (g : Logger.t -> Logger.t) :
  keeps_routing g -> wf_world (modify w a g) = wf_world w.
Proof.
  intros Hk. unfold wf_world. apply wf_from_routing.
  apply Forall2_same_length_lookup. split.
  - by rewrite length_modify.
  - intros i l l' Hl Hl'. rewrite lookup_modify, Hl in Hl'.
    case_decide; simpl in Hl'; injection Hl' as <-; [apply Hk|done].
Qed.

Lemma root_fuel_modify (fuel : nat) (w : World) (a x : addr)
    (g : Logger.t -> Logger.t) :
  keeps_routing g -> root_fuel fuel (modify w a g) x = root_fuel fuel w x.
Proof.
  intros Hk. revert x. induction fuel as [|fuel IH]; intros x; [done|].
  cbn [root_fuel].
  pose proof (lookup_modify_routing w a x g Hk) as H.
  destruct (loggers w !! x) as [l|]; [|by rewrite H].
  destruct H as (l' & -> & Hl').
  destruct (routing_fields l l' Hl') as (_ & _ & -> & _).
  destruct (Logger.parent_logger l); [apply IH|done].
Qed.

Lemma root_modify (w : World) (a x : addr) (g : Logger.t -> Logger.t) :
  keeps_routing g -> root (modify w a g) x = root w x.
Proof.
  intros Hk. unfold root. rewrite length_modify. by apply root_fuel_modify.
Qed.

Lemma GetLogFacility_modify (w : World) (a x : addr)
    (g : Logger.t -> Logger.t) :
  keeps_routing g -> GetLogFacility (modify w a g) x = GetLogFacility w x.
Proof.
  intros Hk. rewrite !GetLogFacility_root, (root_modify w a x g Hk).
  destruct (root w x) as [r|]; [|done].
  pose proof (lookup_modify_routing w a r g Hk) as H.
  destruct (loggers w !! r) as [l|]; [|by rewrite H].
  destruct H as (l' & -> & Hl'). simpl.
  by destruct (routing_fields l l' Hl') as (_ & _ & _ & -> & _).
Qed.

Lemma EmitLog_modify (w : World) (a x : addr) (g : Logger.t -> Logger.t)
    (l l' : Logger.t) (level : LogLevel.t) (message : string) (console : bool) :
  routing l' = routing l ->
  EmitLog (modify w a g) x l' level message console =
  outcome_map (fun w' => modify w' a g) (EmitLog w x l level message console).
Proof.
  unfold routing. intros [= Hc _ _ _ Hf _ Hfile _ Hcol Hd Hm].
  unfold EmitLog, CustomLogger_EmitLog, Logger_EmitLog, GetTimestamp, syslog,
    ofstream_write.
  rewrite Hc, Hf, Hfile, Hcol, Hd, Hm.
  destruct (Logger.class l); [|done].
  destruct (Logger.log_facility l), console, (syslog_enabled w) eqn:Hsys,
    (ofstream.is_open (Logger.log_file l)); simpl; rewrite ?Hsys; done.
Qed.

(** [Log] reads nothing of the buffers: an update of one logger that
    keeps its routing commutes with it. *)
Lemma Log_modify (w : World) (a x : addr) (g : Logger.t -> Logger.t)
    (level : LogLevel.t) (message : string) (console : bool) :
  keeps_routing g ->
  Log (modify w a g) x level message console =
  outcome_map (fun w' => modify w' a g) (Log w x level message console).
Proof.
  intros Hk. unfold Log. rewrite length_modify.
  generalize (length (loggers w)) as fuel. intros fuel.
  revert x message console.
  induction fuel as [|fuel IH]; intros x message console; [done|].
  cbn [Log_fuel].
  pose proof (lookup_modify_routing w a x g Hk) as H.
  destruct (loggers w !! x) as [l|]; [|by rewrite H].
  destruct H as (l' & -> & Hl'). rewrite (GetLogFacility_modify w a x g Hk).
  destruct (routing_fields l l' Hl') as (_ & Hname & Hp & _ & Hlevel & Hotc).
  unfold formatted. rewrite Hname, Hp, Hlevel, Hotc.
  destruct (GetLogFacility w x) as [facility|]; [|done].
  destruct (LogFacility.eqb facility LogFacility.None); [done|].
  destruct (LogLevel.gtb level (Logger.log_level l)); [done|].
  destruct (Logger.parent_logger l) as [p|]; [apply IH|].
  by apply EmitLog_modify.
Qed.

Lemma keeps_routing_set_buf (ch : Channel) (f : LoggingBuf.t -> LoggingBuf.t) :
  keeps_routing (fun l => Logger.set_buf l ch (f (Logger.buf l ch))).
Proof. intros l. reflexivity. Qed.

(** ** The streaming protocol *)

Lemma string_app_assoc (s1 s2 s3 : string) : (s1 ++ s2) ++ s3 = s1 ++ s2 ++ s3.
Proof.
  induction s1 as [|c s1 IH]; [done|].
  change (String c ((s1 ++ s2) ++ s3) = String c (s1 ++ s2 ++ s3)).
  f_equal. exact IH.
Qed.

Lemma GetLogFacility_fuel_ext (fuel : nat) (w w' : World) (a : addr) :
  loggers w' = loggers w ->
  GetLogFacility_fuel fuel w' a = GetLogFacility_fuel fuel w a.
Proof.
  intros H. revert a. induction fuel as [|fuel IH]; intros a; [done|].
  simpl. rewrite H. destruct (loggers w !! a) as [l|]; [|done].
  destruct (Logger.parent_logger l); [apply IH|done].
Qed.

Lemma wait_end_ok_ext (a : addr) (ch : Channel) (w w' : World) :
  loggers w' = loggers w -> wait_end_ok a ch w' = wait_end_ok a ch w.
Proof.
  intros H. unfold wait_end_ok, wf_world, buffer, GetLogFacility.
  rewrite H. destruct (loggers w !! a) as [l|]; [|done]. simpl.
  by rewrite (GetLogFacility_fuel_ext _ w w' _ H).
Qed.

Lemma wait_end_ok_facts (a : addr) (ch : Channel) (w : World) :
  wait_end_ok a ch w = true ->
  wf_world w = true /\
  exists b, buffer w a ch = Some b /\
            LoggingBuf.logger b < length (loggers w) /\
            GetLogFacility w (LoggingBuf.logger b)
              <> Some LogFacility.AndroidLog.
Proof.
  unfold wait_end_ok. intros H. apply andb_true_iff in H as [Hwf H].
  split; [done|]. destruct (buffer w a ch) as [b|]; [|done].
  apply andb_true_iff in H as [Hlt Hfac]. exists b. split; [done|]. split.
  - by apply Nat.ltb_lt.
  - apply negb_true_iff, bool_decide_eq_false in Hfac. exact Hfac.
Qed.

Lemma wf_modify_buf (w : World) (a : addr) (ch : Channel)
    (f : LoggingBuf.t -> LoggingBuf.t) :
  wf_world (modify_buf w a ch f) = wf_world w.
Proof. apply wf_modify, keeps_routing_set_buf. Qed.

Lemma length_modify_buf (w : World) (a : addr) (ch : Channel)
    (f : LoggingBuf.t -> LoggingBuf.t) :
  length (loggers (modify_buf w a ch f)) = length (loggers w).
Proof. apply length_modify. Qed.

Lemma GetLogFacility_modify_buf (w : World) (a x : addr) (ch : Channel)
    (f : LoggingBuf.t -> LoggingBuf.t) :
  GetLogFacility (modify_buf w a ch f) x = GetLogFacility w x.
Proof. apply GetLogFacility_modify, keeps_routing_set_buf. Qed.

Lemma wait_end_ok_modify_buf (a : addr) (ch : Channel) (w : World)
    (f : LoggingBuf.t -> LoggingBuf.t) :
  (forall b, LoggingBuf.logger (f b) = LoggingBuf.logger b) ->
  wait_end_ok a ch w = true -> wait_end_ok a ch (modify_buf w a ch f) = true.
Proof.
  intros Hf H.
  destruct (wait_end_ok_facts a ch w H) as (Hwf & b & Hb & Hlt & Hfac).
  unfold wait_end_ok.
  rewrite wf_modify_buf, Hwf, length_modify_buf.
  rewrite (buffer_modify_buf w a ch b f Hb), Hf, GetLogFacility_modify_buf.
  simpl. apply andb_true_iff. split; [by apply Nat.ltb_lt|].
  by apply negb_true_iff, bool_decide_eq_false.
Qed.

(** Where a wait ends: in one of the worlds of the schedule, with the
    value of the predicate there. *)
Lemma wait_wakeups_end (rel_time : nat) (pred : World -> bool)
    (wakeups : list (nat * World)) (at_deadline : World) (Q : World -> Prop) :
  Forall (fun wakeup => Q wakeup.2) wakeups -> Q at_deadline ->
  Q (wait_wakeups rel_time pred wakeups at_deadline).2 /\
  (wait_wakeups rel_time pred wakeups at_deadline).1.1
    = pred (wait_wakeups rel_time pred wakeups at_deadline).2.
Proof.
  intros Hall Hlast.
  induction Hall as [|[elapsed w'] rest Hw' _ IH]; simpl; [done|].
  destruct (rel_time <=? elapsed)%nat; simpl; [done|].
  destruct (pred w') eqn:Hp; simpl; [done|exact IH].
Qed.

Lemma wait_for_end (rel_time : nat) (pred : World -> bool)
    (w : World) (sched : Schedule) (Q : World -> Prop) :
  Q w -> Forall (fun wakeup => Q wakeup.2) (wakeups sched) ->
  Q (at_deadline sched) ->
  Q (wait_for rel_time pred w sched).2 /\
  (wait_for rel_time pred w sched).1.1 = pred (wait_for rel_time pred w sched).2.
Proof.
  intros Hw Hall Hlast. unfold wait_for.
  destruct (pred w) eqn:Hp; simpl; [done|].
  by apply wait_wakeups_end.
Qed.

Lemma owned_by_owner (me : thread_id) (b : LoggingBuf.t) :
  LoggingBuf.busy b = true -> LoggingBuf.owning_thread b = Some me ->
  owned_by me b = b.
Proof. destruct b. simpl. by intros -> ->. Qed.

(** What [thread_sync] does once its wait has ended, in the world [w1]
    where it ended and with the result [res] of the wait. *)
Lemma thread_sync_post (w : World) (a : addr) (ch : Channel)
    (me : thread_id) (sched : Schedule) :
  let w1 := (wait_for (seconds 1) (buffer_free a ch me) w sched).2 in
  wait_end_ok a ch w1 = true ->
  exists b1 w2,
    buffer w1 a ch = Some b1 /\
    thread_sync w a ch me sched = Returns tt w2 /\
    buffer w2 a ch = Some (owned_by me b1) /\
    wait_end_ok a ch w2 = true.
Proof.
  intros w1 Hok.
  destruct (wait_end_ok_facts a ch w1 Hok) as (Hwf & b1 & Hb1 & Hlt & Hfac).
  exists b1.
  assert ((wait_for (seconds 1) (buffer_free a ch me) w sched).1.1
          = may_enter me b1) as Hres.
  { unfold wait_for. fold w1.
    subst w1. unfold wait_for in *.
    destruct (buffer_free a ch me w) eqn:Hnow; simpl in *.
    - unfold buffer_free in Hnow. by rewrite Hb1 in Hnow.
    - destruct (wait_wakeups_end (seconds 1) (buffer_free a ch me)
                  (wakeups sched) (at_deadline sched) (fun _ => True))
        as [_ ->]; [by apply Forall_true|done|].
      unfold buffer_free at 1. by rewrite Hb1. }
  unfold thread_sync.
  destruct (wait_for (seconds 1) (buffer_free a ch me) w sched)
    as [[res elapsed] w1'] eqn:Hwait.
  simpl in w1, Hres. subst w1 res. rewrite Hb1.
  destruct (may_enter me b1) eqn:Henter; simpl.
  - rewrite Hb1. destruct (LoggingBuf.busy b1) eqn:Hbusy; simpl.
    + exists w1'. unfold may_enter in Henter. rewrite Hbusy in Henter.
      simpl in Henter. apply bool_decide_eq_true in Henter.
      rewrite (owned_by_owner me b1 Hbusy Henter). done.
    + eexists. split; [done|]. split; [reflexivity|]. split.
      * by rewrite (buffer_modify_buf w1' a ch b1 _ Hb1).
      * by apply wait_end_ok_modify_buf.
  - destruct (Log_returns w1' (LoggingBuf.logger b1) LogLevel.Error
                forgot_flush false Hwf Hlt Hfac) as [wl Hlog].
    rewrite Hlog. simpl.
    pose proof (Log_loggers _ _ _ _ _ _ Hlog) as Hsame.
    assert (buffer wl a ch = Some b1) as Hbl
      by by rewrite (buffer_same_loggers _ wl a ch Hsame).
    pose proof (buffer_modify_buf wl a ch b1
                  (fun b => LoggingBuf.set_busy b false) Hbl) as Hb3.
    rewrite Hb3. simpl.
    eexists. split; [done|]. split; [reflexivity|]. split.
    + by rewrite (buffer_modify_buf _ a ch _ _ Hb3).
    + apply wait_end_ok_modify_buf; [done|].
      apply wait_end_ok_modify_buf; [done|].
      by rewrite (wait_end_ok_ext a ch _ wl Hsame).
Qed.

(** Whatever the other threads do, [thread_sync] returns with the buffer
    busy and the calling thread as its owner; the text, severity, console
    flag and logger of the buffer are those it had when the wait ended. *)
Theorem thread_sync_owner (w : World) (a : addr) (ch : Channel)
    (me : thread_id) (sched : Schedule) :
  wait_end_ok a ch w = true ->
  Forall (fun wakeup => wait_end_ok a ch wakeup.2 = true) (wakeups sched) ->
  wait_end_ok a ch (at_deadline sched) = true ->
  exists b1 w2,
    buffer (wait_for (seconds 1) (buffer_free a ch me) w sched).2 a ch
      = Some b1 /\
    thread_sync w a ch me sched = Returns tt w2 /\
    buffer w2 a ch =
      Some (LoggingBuf.mk (LoggingBuf.logger b1) (LoggingBuf.log_level b1)
              (LoggingBuf.console b1) true (Some me) (LoggingBuf.str b1)
              (LoggingBuf.signal b1)).
Proof.
  intros Hw Hall Hlast.
  destruct (wait_for_end (seconds 1) (buffer_free a ch me) w sched
              (fun w => wait_end_ok a ch w = true) Hw Hall Hlast) as [Hok _].
  destruct (thread_sync_post w a ch me sched Hok) as (b1 & w2 & H1 & H2 & H3 & _).
  by exists b1, w2.
Qed.

Lemma thread_sync_owner_witness :
  exists w2,
    thread_sync streaming 0 ch_info 2 never_flushed = Returns tt w2 /\
    buffer w2 0 ch_info =
      Some (LoggingBuf.mk 0 LogLevel.Info false true (Some 2) "Test Log 1" 0).
Proof.
  destruct (thread_sync_owner streaming 0 ch_info 2 never_flushed eq_refl
              ltac:(repeat constructor) eq_refl)
    as (b1 & w2 & Hb1 & Hsync & Hbuf).
  exists w2. split; [exact Hsync|].
  vm_compute in Hb1. injection Hb1 as <-. exact Hbuf.
Defined.

(** [xsputn] returns the number of characters it was given and puts them
    after the text the buffer held when the wait ended, the caller being
    the owner from then on: after a take-over on time-out that text is
    what the previous owner left unflushed. *)
Theorem xsputn_appends (w : World) (a : addr) (ch : Channel)
    (me : thread_id) (sched : Schedule) (s : string) :
  wait_end_ok a ch w = true ->
  Forall (fun wakeup => wait_end_ok a ch wakeup.2 = true) (wakeups sched) ->
  wait_end_ok a ch (at_deadline sched) = true ->
  exists b1 w3,
    buffer (wait_for (seconds 1) (buffer_free a ch me) w sched).2 a ch
      = Some b1 /\
    xsputn w a ch me sched s = Returns (String.length s) w3 /\
    buffer w3 a ch =
      Some (LoggingBuf.mk (LoggingBuf.logger b1) (LoggingBuf.log_level b1)
              (LoggingBuf.console b1) true (Some me) (LoggingBuf.str b1 ++ s)
              (LoggingBuf.signal b1)).
Proof.
  intros Hw Hall Hlast.
  destruct (wait_for_end (seconds 1) (buffer_free a ch me) w sched
              (fun w => wait_end_ok a ch w = true) Hw Hall Hlast) as [Hok _].
  destruct (thread_sync_post w a ch me sched Hok) as (b1 & w2 & H1 & H2 & H3 & _).
  exists b1. unfold xsputn. rewrite H2. simpl.
  eexists. split; [done|]. split; [reflexivity|].
  by rewrite (buffer_modify_buf w2 a ch _ _ H3).
Qed.

Lemma xsputn_appends_witness :
  exists w3,
    xsputn streaming 0 ch_info 2 never_flushed "Test Log 2" = Returns 10 w3 /\
    buffer w3 0 ch_info =
      Some (LoggingBuf.mk 0 LogLevel.Info false true (Some 2)
              "Test Log 1Test Log 2" 0).
Proof.
  destruct (xsputn_appends streaming 0 ch_info 2 never_flushed "Test Log 2"
              eq_refl ltac:(repeat constructor) eq_refl)
    as (b1 & w3 & Hb1 & Hput & Hbuf).
  exists w3. split; [exact Hput|].
  vm_compute in Hb1. injection Hb1 as <-. exact Hbuf.
Defined.

(** Whatever the other threads do, [sync] hands the whole text of the
    buffer, as it was when the wait ended, to [Log] once and returns 0
    with the buffer idle, its text empty and one more notification
    issued. *)
Theorem sync_flushes (w : World) (a : addr) (ch : Channel)
    (me : thread_id) (sched : Schedule) :
  wait_end_ok a ch w = true ->
  Forall (fun wakeup => wait_end_ok a ch wakeup.2 = true) (wakeups sched) ->
  wait_end_ok a ch (at_deadline sched) = true ->
  exists b1 w2 wl,
    buffer (wait_for (seconds 1) (buffer_free a ch me) w sched).2 a ch
      = Some b1 /\
    thread_sync w a ch me sched = Returns tt w2 /\
    Log w2 (LoggingBuf.logger b1) (LoggingBuf.log_level b1)
        (LoggingBuf.str b1) (LoggingBuf.console b1) = Returns tt wl /\
    sync w a ch me sched =
      Returns 0%Z
        (modify_buf wl a ch (fun b =>
           LoggingBuf.notify_one
             (LoggingBuf.set_busy (LoggingBuf.set_str b EmptyString) false))) /\
    buffer (world_after w (sync w a ch me sched)) a ch =
      Some (LoggingBuf.mk (LoggingBuf.logger b1) (LoggingBuf.log_level b1)
              (LoggingBuf.console b1) false (Some me) EmptyString
              (S (LoggingBuf.signal b1))).
Proof.
  intros Hw Hall Hlast.
  destruct (wait_for_end (seconds 1) (buffer_free a ch me) w sched
              (fun w => wait_end_ok a ch w = true) Hw Hall Hlast) as [Hok _].
  destruct (thread_sync_post w a ch me sched Hok)
    as (b1 & w2 & H1 & H2 & H3 & Hok2).
  destruct (wait_end_ok_facts a ch w2 Hok2) as (Hwf & b2 & Hb2 & Hlt & Hfac).
  rewrite H3 in Hb2. injection Hb2 as <-. simpl in Hlt, Hfac.
  destruct (Log_returns w2 (LoggingBuf.logger b1) (LoggingBuf.log_level b1)
              (LoggingBuf.str b1) (LoggingBuf.console b1) Hwf Hlt Hfac)
    as [wl Hlog].
  exists b1, w2, wl. split; [done|]. split; [done|]. split; [done|].
  assert (sync w a ch me sched =
          Returns 0%Z
            (modify_buf wl a ch (fun b =>
               LoggingBuf.notify_one
                 (LoggingBuf.set_busy (LoggingBuf.set_str b EmptyString)
                                      false)))) as Hsync.
  { unfold sync. rewrite H2. simpl. rewrite H3. simpl. by rewrite Hlog. }
  split; [exact Hsync|]. rewrite Hsync. simpl.
  assert (buffer wl a ch = Some (owned_by me b1)) as Hbl.
  { by rewrite (buffer_same_loggers w2 wl a ch (Log_loggers _ _ _ _ _ _ Hlog)). }
  by rewrite (buffer_modify_buf wl a ch _ _ Hbl).
Qed.

Lemma sync_flushes_witness :
  buffer (world_after streaming (sync streaming 0 ch_info 2 never_flushed))
         0 ch_info
  = Some (LoggingBuf.mk 0 LogLevel.Info false false (Some 2) EmptyString 1).
Proof.
  destruct (sync_flushes streaming 0 ch_info 2 never_flushed eq_refl
              ltac:(repeat constructor) eq_refl)
    as (b1 & w2 & wl & Hb1 & _ & _ & _ & Hbuf).
  vm_compute in Hb1. injection Hb1 as <-. exact Hbuf.
Defined.

Lemma Log_modify_buf (w : World) (a x : addr) (ch : Channel)
    (f : LoggingBuf.t -> LoggingBuf.t)
    (level : LogLevel.t) (message : string) (console : bool) :
  Log (modify_buf w a ch f) x level message console =
  outcome_map (fun w' => modify_buf w' a ch f) (Log w x level message console).
Proof. apply Log_modify, keeps_routing_set_buf. Qed.

(** [thread_sync] on a buffer the caller may enter at once. *)
Lemma thread_sync_now (w : World) (a : addr) (ch : Channel)
    (me : thread_id) (sched : Schedule) (b : LoggingBuf.t) :
  buffer w a ch = Some b -> may_enter me b = true ->
  thread_sync w a ch me sched =
  Returns tt
    (if LoggingBuf.busy b then w
     else modify_buf w a ch (fun b =>
            LoggingBuf.set_owning_thread (LoggingBuf.set_busy b true)
                                         (Some me))).
Proof.
  intros Hb Henter. unfold thread_sync, wait_for, buffer_free.
  rewrite Hb, Henter, Hb. simpl. rewrite Hb.
  by destruct (LoggingBuf.busy b).
Qed.

(** [stream << s1 << s2 << std::flush] by one thread, on a buffer that is
    idle or already its own, logs one message: the text held by the
    buffer followed by [s1] and [s2], at the buffer's severity and with
    its console flag, on the buffer's logger.  The sinks are left as that
    one call of [Log] leaves them, and the buffer is idle and empty
    again. *)
Theorem stream_then_flush (w : World) (a : addr) (ch : Channel)
    (me : thread_id) (sched1 sched2 sched3 : Schedule)
    (b : LoggingBuf.t) (s1 s2 : string) :
  wf_world w = true ->
  buffer w a ch = Some b ->
  may_enter me b = true ->
  LoggingBuf.logger b < length (loggers w) ->
  GetLogFacility w (LoggingBuf.logger b) <> Some LogFacility.AndroidLog ->
  exists wl w3,
    Log w (LoggingBuf.logger b) (LoggingBuf.log_level b)
        (LoggingBuf.str b ++ s1 ++ s2) (LoggingBuf.console b) = Returns tt wl /\
    bind (xsputn w a ch me sched1 s1) (fun _ w1 =>
      bind (xsputn w1 a ch me sched2 s2) (fun _ w2 =>
        sync w2 a ch me sched3)) = Returns 0%Z w3 /\
    clog w3 = clog wl /\ cerr w3 = cerr wl /\ files w3 = files wl /\
    syslog_calls w3 = syslog_calls wl /\
    callback_calls w3 = callback_calls wl /\
    buffer w3 a ch =
      Some (LoggingBuf.mk (LoggingBuf.logger b) (LoggingBuf.log_level b)
              (LoggingBuf.console b) false (Some me) EmptyString
              (S (LoggingBuf.signal b))).
Proof.
  intros Hwf Hb Henter Hlt Hfac.
  destruct (Log_returns w (LoggingBuf.logger b) (LoggingBuf.log_level b)
              (LoggingBuf.str b ++ s1 ++ s2) (LoggingBuf.console b)
              Hwf Hlt Hfac) as [wl Hlog].
  exists wl.
  assert (buffer wl a ch = Some b) as Hbl
    by by rewrite (buffer_same_loggers w wl a ch (Log_loggers _ _ _ _ _ _ Hlog)).
  set (own := fun b => LoggingBuf.set_owning_thread
                         (LoggingBuf.set_busy b true) (Some me)).
  set (wT := if LoggingBuf.busy b then w else modify_buf w a ch own).
  assert (buffer wT a ch = Some (owned_by me b)) as HbT.
  { subst wT. destruct (LoggingBuf.busy b) eqn:Hbusy.
    - unfold may_enter in Henter. rewrite Hbusy in Henter. simpl in Henter.
      apply bool_decide_eq_true in Henter.
      by rewrite (owned_by_owner me b Hbusy Henter).
    - by rewrite (buffer_modify_buf w a ch b own Hb). }
  set (app1 := fun b => LoggingBuf.set_str b (LoggingBuf.str b ++ s1)).
  set (app2 := fun b => LoggingBuf.set_str b (LoggingBuf.str b ++ s2)).
  pose proof (buffer_modify_buf wT a ch _ app1 HbT) as HbA.
  pose proof (buffer_modify_buf _ a ch _ app2 HbA) as HbB.
  assert (bind (xsputn w a ch me sched1 s1) (fun _ w1 =>
            bind (xsputn w1 a ch me sched2 s2) (fun _ w2 =>
              sync w2 a ch me sched3))
          = bind (Log (modify_buf (modify_buf wT a ch app1) a ch app2)
                      (LoggingBuf.logger b) (LoggingBuf.log_level b)
                      (LoggingBuf.str b ++ s1 ++ s2) (LoggingBuf.console b))
                 (fun _ w2 =>
                    Returns 0%Z
                      (modify_buf w2 a ch (fun b =>
                         LoggingBuf.notify_one
                           (LoggingBuf.set_busy
                              (LoggingBuf.set_str b EmptyString) false)))))
    as Hrun.
  { unfold xsputn at 1. rewrite (thread_sync_now w a ch me sched1 b Hb Henter).
    fold own. fold wT. simpl. fold app1.
    unfold xsputn. rewrite (thread_sync_now _ a ch me sched2 _ HbA
               (may_enter_owner me (app1 (owned_by me b)) eq_refl eq_refl)).
    simpl. fold app2.
    unfold sync. rewrite (thread_sync_now _ a ch me sched3 _ HbB
               (may_enter_owner me (app2 (app1 (owned_by me b)))
                  eq_refl eq_refl)).
    simpl. rewrite HbB. simpl. by rewrite string_app_assoc. }
  rewrite Hrun, !Log_modify_buf.
  assert (Log wT (LoggingBuf.logger b) (LoggingBuf.log_level b)
              (LoggingBuf.str b ++ s1 ++ s2) (LoggingBuf.console b)
          = Returns tt (if LoggingBuf.busy b then wl
                        else modify_buf wl a ch own)) as HlogT.
  { subst wT. destruct (LoggingBuf.busy b); [done|].
    by rewrite Log_modify_buf, Hlog. }
  rewrite HlogT. simpl. eexists. split; [exact Hlog|]. split; [reflexivity|].
  split; [by destruct (LoggingBuf.busy b)|].
  split; [by destruct (LoggingBuf.busy b)|].
  split; [by destruct (LoggingBuf.busy b)|].
  split; [by destruct (LoggingBuf.busy b)|].
  split; [by destruct (LoggingBuf.busy b)|].
  assert (buffer (if LoggingBuf.busy b then wl else modify_buf wl a ch own)
                 a ch = Some (owned_by me b)) as HbT'.
  { destruct (LoggingBuf.busy b) eqn:Hbusy.
    - unfold may_enter in Henter. rewrite Hbusy in Henter. simpl in Henter.
      apply bool_decide_eq_true in Henter.
      by rewrite (owned_by_owner me b Hbusy Henter).
    - by rewrite (buffer_modify_buf wl a ch b own Hbl). }
  pose proof (buffer_modify_buf _ a ch _ app1 HbT') as HbA'.
  pose proof (buffer_modify_buf _ a ch _ app2 HbA') as HbB'.
  by rewrite (buffer_modify_buf _ a ch _ _ HbB').
Qed.

Lemma stream_then_flush_witness :
  exists w3,
    bind (xsputn logger_test 0 ch_warning 7 (idle logger_test) "disk ")
      (fun _ w1 =>
         bind (xsputn w1 0 ch_warning 7 (idle w1) "almost full")
           (fun _ w2 => sync w2 0 ch_warning 7 (idle w2))) = Returns 0%Z w3 /\
    clog w3 = "2024-05-17T10:11:12.123456 [WARNING] disk almost full" ++ newline.
Proof.
  destruct (stream_then_flush logger_test 0 ch_warning 7
              (idle logger_test) (idle logger_test) (idle logger_test)
              (LoggingBuf.mk 0 LogLevel.Warning false false None EmptyString 0)
              "disk " "almost full"
              eq_refl eq_refl eq_refl ltac:(vm_compute; lia) ltac:(discriminate))
    as (wl & w3 & Hlog & Hrun & Hclog & _).
  exists w3. split; [exact Hrun|]. rewrite Hclog.
  vm_compute in Hlog. injection Hlog as <-. reflexivity.
Defined.

(** ** Configuration *)

Lemma root_fuel_keeps_parent (fuel : nat) (w : World) (a x : addr)
    (g : Logger.t -> Logger.t) :
  keeps_parent g -> root_fuel fuel (modify w a g) x = root_fuel fuel w x.
Proof.
  intros Hk. revert x. induction fuel as [|fuel IH]; intros x; [done|].
  cbn [root_fuel]. rewrite lookup_modify.
  destruct (loggers w !! x) as [l|]; case_decide; simpl; try done;
    rewrite ?Hk; destruct (Logger.parent_logger l); auto.
Qed.

Lemma root_keeps_parent (w : World) (a x : addr) (g : Logger.t -> Logger.t) :
  keeps_parent g -> root (modify w a g) x = root w x.
Proof.
  intros Hk. unfold root. rewrite length_modify. by apply root_fuel_keeps_parent.
Qed.

Lemma root_fuel_ext (fuel : nat) (w w' : World) (x : addr) :
  loggers w' = loggers w -> root_fuel fuel w' x = root_fuel fuel w x.
Proof.
  intros H. revert x. induction fuel as [|fuel IH]; intros x; [done|].
  simpl. rewrite H. destruct (loggers w !! x) as [l|]; [|done].
  destruct (Logger.parent_logger l); [apply IH|done].
Qed.

Lemma root_ext (w w' : World) (x : addr) :
  loggers w' = loggers w -> root w' x = root w x.
Proof. intros H. unfold root. rewrite H. by apply root_fuel_ext. Qed.

Lemma IsColorized_root (w : World) (a : addr) :
  IsColorized w a =
  match root w a with
  | Some r => Logger.colorize <$> loggers w !! r
  | None => None
  end.
Proof. apply IsColorized_fuel_root. Qed.

(** [SetLogLevel] is local: it sets the threshold of its own node and of
    no other, and changes no facility and no sink. *)
Theorem SetLogLevel_local (w : World) (a : addr) (l : Logger.t)
    (level : LogLevel.t) :
  loggers w !! a = Some l ->
  exists w',
    SetLogLevel w a level = Returns tt w' /\
    GetLogLevel w' a = Some level /\
    (forall x, x <> a -> GetLogLevel w' x = GetLogLevel w x) /\
    (forall x, GetLogFacility w' x = GetLogFacility w x) /\
    clog w' = clog w /\ cerr w' = cerr w /\ files w' = files w /\
    syslog_calls w' = syslog_calls w /\ callback_calls w' = callback_calls w.
Proof.
  intros Hl. unfold SetLogLevel. rewrite Hl. eexists. split; [reflexivity|].
  split; [|split; [|split; [|done]]].
  - unfold GetLogLevel. by rewrite lookup_modify, decide_True, Hl.
  - intros x Hx. unfold GetLogLevel. by rewrite lookup_modify, decide_False.
  - intros x. rewrite !GetLogFacility_root, root_keeps_parent by done.
    destruct (root w x) as [r|]; [|done]. rewrite lookup_modify.
    case_decide; [|done]. by destruct (loggers w !! r).
Qed.

Lemma SetLogLevel_local_witness :
  exists w',
    SetLogLevel custom_test 1 LogLevel.Debug = Returns tt w' /\
    GetLogLevel w' 1 = Some LogLevel.Debug /\
    GetLogLevel w' 0 = Some LogLevel.Info.
Proof.
  with_logger custom_test 1 ltac:(fun l =>
    destruct (SetLogLevel_local custom_test 1 l LogLevel.Debug eq_refl)
      as (w' & Hset & Hown & Hother & _)).
  exists w'. split; [exact Hset|]. split; [exact Hown|].
  rewrite (Hother 0) by lia. reflexivity.
Defined.

(** [Colorize] matters on the root only.  On a root it stores the request
    when colour is possible and false otherwise, and every node below
    answers [IsColorized()] with that; on a node that has a parent it
    changes no answer of [IsColorized()], not even the node's own. *)
Theorem Colorize_root_only (w : World) (a : addr) (l : Logger.t)
    (colorize_output : bool) :
  wf_world w = true ->
  loggers w !! a = Some l ->
  exists w',
    Colorize w a colorize_output = Returns tt w' /\
    forall x,
      x < length (loggers w) ->
      IsColorized w' x =
      if bool_decide (root w x = Some a)
      then Some (colorize_output && IsColorPossible w)
      else IsColorized w x.
Proof.
  intros Hwf Hl. unfold Colorize. rewrite Hl. eexists. split; [reflexivity|].
  intros x Hx. rewrite !IsColorized_root, root_keeps_parent by done.
  destruct (root_exists w x Hwf Hx) as (r & lr & Hr & _ & Hlr & _).
  rewrite Hr, lookup_modify, Hlr. simpl.
  destruct (decide (a = r)) as [->|Hne].
  - by rewrite bool_decide_eq_true_2.
  - rewrite bool_decide_eq_false_2; [done|congruence].
Qed.

Lemma Colorize_root_only_witness :
  IsColorized (world_after three_levels (Colorize three_levels 1 true)) 1
    = IsColorized three_levels 1 /\
  IsColorized (world_after three_levels (Colorize three_levels 0 true)) 2
    = Some false.
Proof.
  split.
  - with_logger three_levels 1 ltac:(fun l =>
      destruct (Colorize_root_only three_levels 1 l true eq_refl eq_refl)
        as (w' & Hc & Hall)).
    rewrite Hc. simpl. rewrite (Hall 1) by (vm_compute; lia). reflexivity.
  - with_logger three_levels 0 ltac:(fun l =>
      destruct (Colorize_root_only three_levels 0 l true eq_refl eq_refl)
        as (w' & Hc & Hall)).
    rewrite Hc. simpl. rewrite (Hall 2) by (vm_compute; lia). reflexivity.
Defined.

Lemma alter_insert (ls : list Logger.t) (r : addr) (l : Logger.t)
    (g : Logger.t -> Logger.t) :
  ls !! r = Some l -> alter g r ls = <[r := g l]> ls.
Proof.
  intros Hl. apply list_eq. intros i.
  pose proof (lookup_lt_Some _ _ _ Hl) as Hlt.
  destruct (decide (r = i)) as [<-|Hne].
  - by rewrite list_lookup_alter_eq, list_lookup_insert_eq, Hl.
  - by rewrite list_lookup_alter_ne, list_lookup_insert_ne.
Qed.

Lemma SetLogFacility_loggers (w : World) (r : addr) (lr : Logger.t)
    (facility : LogFacility.t) (filename : string) :
  loggers w !! r = Some lr ->
  Logger.parent_logger lr = None ->
  file_inv lr = true ->
  exists w' lr',
    SetLogFacility w r facility filename = Returns tt w' /\
    loggers w' = <[r := lr']> (loggers w) /\
    Logger.parent_logger lr' = None /\
    Logger.log_facility lr' =
      facility_after w (Logger.log_facility lr) facility filename.
Proof.
  intros Hlr Hroot Hinv. unfold SetLogFacility, facility_after.
  rewrite Hlr, Hroot.
  destruct (LogFacility.eqb (Logger.log_facility lr) facility) eqn:Hsame;
    cbn [negb].
  - apply LogFacility_eqb_eq in Hsame. subst facility.
    exists w, lr. split; [done|]. split; [by rewrite list_insert_id|].
    split; [done|].
    by destruct (LogFacility.eqb (Logger.log_facility lr) LogFacility.File).
  - set (w1 := if LogFacility.eqb (Logger.log_facility lr) LogFacility.Syslog
               then closelog w else w).
    set (w2 := if LogFacility.eqb facility LogFacility.Syslog
               then openlog w1 (Logger.process_name lr) LOG_PID LOG_DAEMON
               else w1).
    assert (loggers w2 = loggers w /\ fs_can_open w2 = fs_can_open w)
      as [Hls Hcan].
    { subst w2 w1. unfold openlog, closelog.
      destruct (LogFacility.eqb facility LogFacility.Syslog),
        (LogFacility.eqb (Logger.log_facility lr) LogFacility.Syslog),
        (syslog_enabled w) eqn:Hsys; simpl; rewrite ?Hsys; done. }
    clearbody w2. clear w1.
    destruct (LogFacility.eqb facility LogFacility.File) eqn:Hfile;
      cbn [andb].
    + apply LogFacility_eqb_eq in Hfile. subst facility.
      rewrite Hsame. cbn [negb].
      assert (Logger.log_facility lr <> LogFacility.File) as Hne
        by (intros E; rewrite E in Hsame; done).
      unfold ofstream_open.
      rewrite (file_inv_closed lr Hinv Hne), Hcan.
      destruct (fs_can_open w filename); cbn [negb ofstream.is_open];
        rewrite ?(file_inv_closed lr Hinv Hne); cbn [negb];
        eexists _, _; (split; [reflexivity|]); unfold modify;
        cbn [loggers set_loggers set_files set_cerr];
        rewrite Hls, (alter_insert _ _ _ _ Hlr); done.
    + eexists _, _. split; [reflexivity|]. unfold modify.
      cbn [loggers set_loggers].
      rewrite Hls, (alter_insert _ _ _ _ Hlr). done.
Qed.

Lemma wf_from_intro (n : nat) (ls : list Logger.t) :
  (forall i l, ls !! i = Some l -> wf_logger (n + i) l = true) ->
  wf_from n ls = true.
Proof.
  revert n. induction ls as [|x ls IH]; intros n H; [done|]. simpl.
  apply andb_true_iff. split.
  - rewrite <- (Nat.add_0_r n). by apply H.
  - apply IH. intros i l Hl. replace (S n + i) with (n + S i) by lia.
    by apply H.
Qed.

Lemma wf_insert_root (w w' : World) (r : addr) (lr' : Logger.t) :
  wf_world w = true ->
  loggers w' = <[r := lr']> (loggers w) ->
  Logger.parent_logger lr' = None ->
  wf_world w' = true.
Proof.
  intros Hwf Hls Hroot. unfold wf_world. rewrite Hls.
  apply wf_from_intro. intros i l Hl. simpl.
  destruct (decide (r = i)) as [<-|Hne].
  - apply list_lookup_insert_Some in Hl as [(_ & <- & _)|[? _]]; [|done].
    unfold wf_logger. by rewrite Hroot.
  - rewrite list_lookup_insert_ne in Hl by done.
    exact (wf_from_lookup _ 0 i l Hwf Hl).
Qed.

Lemma root_fuel_insert_root (fuel : nat) (w w' : World) (r x : addr)
    (lr lr' : Logger.t) :
  loggers w !! r = Some lr ->
  Logger.parent_logger lr = None ->
  loggers w' = <[r := lr']> (loggers w) ->
  Logger.parent_logger lr' = None ->
  root_fuel fuel w' x = root_fuel fuel w x.
Proof.
  intros Hlr Hroot Hls Hroot'. revert x.
  induction fuel as [|fuel IH]; intros x; [done|]. simpl. rewrite Hls.
  destruct (decide (r = x)) as [<-|Hne].
  - rewrite list_lookup_insert_eq by by apply lookup_lt_Some in Hlr.
    by rewrite Hlr, Hroot, Hroot'.
  - rewrite list_lookup_insert_ne by done.
    destruct (loggers w !! x) as [l|]; [|done].
    destruct (Logger.parent_logger l); [apply IH|done].
Qed.

Lemma root_Some_lt (w : World) (a r : addr) :
  root w a = Some r -> a < length (loggers w).
Proof.
  unfold root. destruct (length (loggers w)) as [|n] eqn:Hn; [done|]. simpl.
  destruct (loggers w !! a) as [l|] eqn:Hl; [|done].
  intros _. rewrite <- Hn. by apply lookup_lt_Some in Hl.
Qed.

(** What [SetLogFacility] on a root means for its tree: every node
    below answers [GetLogFacility()] with the facility the root ended up
    with, which is the one asked for unless a log file had to be opened
    and could not be; nodes of other trees answer as before; and when
    that open failed, logging from every node of the tree is off, without
    further notice. *)
Theorem SetLogFacility_whole_tree (w : World) (r : addr) (lr : Logger.t)
    (facility : LogFacility.t) (filename : string) :
  wf_world w = true ->
  loggers w !! r = Some lr ->
  Logger.parent_logger lr = None ->
  file_inv lr = true ->
  exists w',
    SetLogFacility w r facility filename = Returns tt w' /\
    (forall a, root w a = Some r ->
       GetLogFacility w' a =
       Some (facility_after w (Logger.log_facility lr) facility filename)) /\
    (forall a, a < length (loggers w) -> root w a <> Some r ->
       GetLogFacility w' a = GetLogFacility w a) /\
    (facility_after w (Logger.log_facility lr) facility filename
       = LogFacility.None ->
     forall a level text console,
       root w a = Some r -> Log w' a level text console = Returns tt w').
Proof.
  intros Hwf Hlr Hroot Hinv.
  destruct (SetLogFacility_loggers w r lr facility filename Hlr Hroot Hinv)
    as (w' & lr' & Hset & Hls & Hroot' & Hfac).
  exists w'. split; [exact Hset|].
  pose proof (lookup_lt_Some _ _ _ Hlr) as Hr.
  assert (forall x, root w' x = root w x) as Hsame.
  { intros x. unfold root. rewrite Hls, length_insert.
    by apply (root_fuel_insert_root _ w w' r x lr lr'). }
  assert (loggers w' !! r = Some lr') as Hlr'
    by by rewrite Hls, list_lookup_insert_eq.
  split; [|split].
  - intros a Ha. rewrite GetLogFacility_root, Hsame, Ha, Hlr'. simpl.
    by rewrite Hfac.
  - intros a Ha Hother. rewrite !GetLogFacility_root, Hsame.
    destruct (root w a) as [r2|]; [|done].
    rewrite Hls, list_lookup_insert_ne; [done|congruence].
  - intros Hnone a level text console Ha.
    apply (Log_sink_None w' a r lr').
    + by apply (wf_insert_root w w' r lr').
    + rewrite Hls, length_insert. by apply (root_Some_lt w a r).
    + by rewrite Hsame.
    + done.
    + by rewrite Hfac.
Qed.

Lemma SetLogFacility_whole_tree_witness :
  exists w',
    SetLogFacility three_levels 0 LogFacility.File "" = Returns tt w' /\
    GetLogFacility w' 2 = Some LogFacility.None /\
    Log w' 2 LogLevel.Critical "disk failure" true = Returns tt w'.
Proof.
  with_logger three_levels 0 ltac:(fun lr =>
    destruct (SetLogFacility_whole_tree three_levels 0 lr LogFacility.File ""
                eq_refl eq_refl eq_refl eq_refl)
      as (w' & Hset & Hseen & _ & Hoff)).
  exists w'. split; [exact Hset|]. split.
  - exact (Hseen 2 eq_refl).
  - exact (Hoff eq_refl 2 LogLevel.Critical "disk failure" true eq_refl).
Defined.

(** ** Construction *)

(** A store built by the constructors stays well formed: the new object
    is added at the end, the objects already there are untouched, and
    from the new object as from any other the parent links lead to a
    root, so no walk up the tree can fail. *)
Theorem construction_well_formed (w w' : World) (cls : LoggerClass)
    (process_name component_name : string) (parent_logger : option addr)
    (output_to_console : bool) (this : addr) :
  wf_world w = true ->
  Logger_init w cls process_name component_name parent_logger
              output_to_console = Returns this w' ->
  wf_world w' = true /\
  this = length (loggers w) /\
  length (loggers w') = S (length (loggers w)) /\
  (forall x, x < length (loggers w) -> loggers w' !! x = loggers w !! x) /\
  (forall x, x < length (loggers w') ->
     exists r lr, root w' x = Some r /\ loggers w' !! r = Some lr /\
                  Logger.parent_logger lr = None /\
                  GetLogFacility w' x = Some (Logger.log_facility lr)).
Proof.
  intros Hwf Hinit.
  pose proof (Logger_init_wf w w' _ _ _ _ _ _ Hwf Hinit) as Hwf'.
  split; [exact Hwf'|].
  assert (this = length (loggers w) /\
          exists l, loggers w' = (loggers w ++ [l])%list) as [-> [l Hls]].
  { unfold Logger_init in Hinit.
    destruct (match parent_logger with Some p => GetLogLevel w p | None => _ end);
      [|done].
    destruct (match parent_logger with Some p => IsColorized w p | None => _ end);
      [|done].
    injection Hinit as <- <-. split; [done|]. eexists. reflexivity. }
  split; [done|]. split; [rewrite Hls, length_app; simpl; lia|]. split.
  - intros x Hx. by rewrite Hls, lookup_app_l.
  - intros x Hx.
    destruct (root_exists w' x Hwf' Hx) as (r & lr & Hr & _ & Hlr & Hroot).
    exists r, lr. repeat split; try done.
    by rewrite GetLogFacility_root, Hr, Hlr.
Qed.

Lemma construction_well_formed_witness :
  wf_world three_levels = true /\ length (loggers three_levels) = 3 /\
  root three_levels 2 = Some 0.
Proof.
  destruct (construction_well_formed
              (world_after
                 (world_after fresh_world (Logger_new fresh_world false))
                 (Logger_new_child
                    (world_after fresh_world (Logger_new fresh_world false))
                    "NET" (Some 0) false))
              three_levels BaseLogger "" "TLS" (Some 1) false 2
              eq_refl eq_refl) as (Hwf & _ & Hlen & _).
  split; [exact Hwf|]. split; [exact Hlen|]. reflexivity.
Defined.

(** On a logger fresh from any constructor, the stream that
    [GetLoggingStream] returns for a level has an idle, empty buffer that
    logs at that very level, on this logger and without the console flag;
    the [console] stream logs at Info with the console flag. *)
Theorem fresh_logger_streams (w w' : World) (cls : LoggerClass)
    (process_name component_name : string) (parent_logger : option addr)
    (output_to_console : bool) (this : addr) :
  Logger_init w cls process_name component_name parent_logger
              output_to_console = Returns this w' ->
  (forall level,
     buffer w' this (GetLoggingStream level)
     = Some (LoggingBuf.mk this level false false None EmptyString 0))
  /\ buffer w' this ch_console
     = Some (LoggingBuf.mk this LogLevel.Info true false None EmptyString 0).
Proof.
  unfold Logger_init.
  destruct (match parent_logger with Some p => GetLogLevel w p | None => _ end);
    [|done].
  destruct (match parent_logger with Some p => IsColorized w p | None => _ end);
    [|done].
  intros [= <- <-]. unfold buffer. simpl. rewrite list_lookup_middle by done.
  split; [intros []|]; done.
Qed.

Lemma fresh_logger_streams_witness :
  buffer logger_test 0 (GetLoggingStream LogLevel.Error)
  = Some (LoggingBuf.mk 0 LogLevel.Error false false None EmptyString 0).
Proof.
  exact (proj1 (fresh_logger_streams fresh_world logger_test BaseLogger
                  "LTST" "" None false 0 eq_refl) LogLevel.Error).
Defined.

(** Names and levels round-trip: the name of a level, in any mix of upper
    and lower case, sets that level, [GetLogLevelString()] then gives the
    name back in upper case, nothing is logged on the way, and different
    levels have different names. *)
Theorem level_names_round_trip (w : World) (a : addr) (l : Logger.t)
    (level : LogLevel.t) (name : string) :
  loggers w !! a = Some l ->
  transform toupper name = LogLevelString level ->
  (exists w',
     SetLogLevel_string w a name = Returns tt w' /\
     GetLogLevel w' a = Some level /\
     GetLogLevelString w' a = Some (LogLevelString level) /\
     clog w' = clog w /\ cerr w' = cerr w /\ files w' = files w /\
     syslog_calls w' = syslog_calls w /\ callback_calls w' = callback_calls w)
  /\ (forall level', LogLevelString level' = LogLevelString level ->
        level' = level)
  /\ transform toupper (LogLevelString level) = LogLevelString level.
Proof.
  intros Hl Hname. split; [|split].
  - assert (SetLogLevel_string w a name = SetLogLevel w a level) as ->.
    { unfold SetLogLevel_string. rewrite Hname. by destruct level. }
    destruct (SetLogLevel_returns w a l level Hl) as [-> Hget].
    eexists. split; [reflexivity|]. split; [exact Hget|].
    split; [|done]. unfold GetLogLevelString. by rewrite Hget.
  - intros level'. by destruct level', level.
  - by destruct level.
Qed.

Lemma level_names_round_trip_witness :
  exists w',
    SetLogLevel_string logger_test 0 "Debug" = Returns tt w' /\
    GetLogLevelString w' 0 = Some "DEBUG".
Proof.
  with_logger logger_test 0 ltac:(fun l =>
    destruct (proj1 (level_names_round_trip logger_test 0 l LogLevel.Debug
                       "Debug" eq_refl eq_refl))
      as (w' & Hset & _ & Hname & _)).
  exists w'. split; [exact Hset|exact Hname].
Defined.

(** ** The time stamp *)

Lemma string_app_length (s1 s2 : string) :
  String.length (s1 ++ s2) = String.length s1 + String.length s2.
Proof.
  induction s1 as [|c s1 IH]; [done|].
  change (S (String.length (s1 ++ s2)) = S (String.length s1 + String.length s2)).
  by rewrite IH.
Qed.

Lemma zeros_length (k : nat) : String.length (zeros k) = k.
Proof. induction k as [|k IH]; simpl; [done|]. by rewrite IH. Qed.

Lemma put_padded_length (width : nat) (n : N) :
  String.length (NilZero.string_of_uint (N.to_uint n)) <= width ->
  String.length (put_padded width n) = width.
Proof.
  intros H. unfold put_padded. rewrite string_app_length, zeros_length. lia.
Qed.

Lemma all_from_spec (count : nat) (n : N) (P : N -> bool) :
  all_from count n P = true ->
  forall m, (n <= m)%N -> (m < n + N.of_nat count)%N -> P m = true.
Proof.
  revert n. induction count as [|count IH]; intros n Hall m Hle Hlt; [lia|].
  simpl in Hall. apply andb_true_iff in Hall as [Hn Hrest].
  destruct (decide (m = n)) as [->|Hne]; [done|].
  apply (IH (N.succ n) Hrest); lia.
Qed.

Lemma digits_of_milliseconds (n : N) :
  (n < 1000)%N -> String.length (NilZero.string_of_uint (N.to_uint n)) <= 3.
Proof.
  intros Hn.
  assert (all_from 1000 0
            (fun n => String.length (NilZero.string_of_uint (N.to_uint n)) <=? 3)%nat
          = true) as Hall by (vm_compute; reflexivity).
  apply Nat.leb_le. apply (all_from_spec _ _ _ Hall); lia.
Qed.

Lemma digits_of_microseconds (n : N) :
  (n < 1000000)%N -> String.length (NilZero.string_of_uint (N.to_uint n)) <= 6.
Proof.
  intros Hn.
  assert (all_from (N.to_nat 1000000) 0
            (fun n => String.length (NilZero.string_of_uint (N.to_uint n)) <=? 6)%nat
          = true) as Hall by (vm_compute; reflexivity).
  apply Nat.leb_le. apply (all_from_spec _ _ _ Hall); lia.
Qed.

Lemma timestamp_length (w : World) (l : Logger.t) :
  time_inv l = true ->
  String.length (GetTimestamp w l)
  = String.length (local_time w) + 1 + Logger.time_digits l.
Proof.
  unfold time_inv, GetTimestamp. intros H.
  rewrite !string_app_length. simpl.
  apply orb_true_iff in H as [H|H]; apply andb_true_iff in H as [Hd Hm];
    apply Nat.eqb_eq in Hd; apply N.eqb_eq in Hm; rewrite Hd, Hm.
  - rewrite put_padded_length; [lia|].
    apply digits_of_milliseconds. by apply N.mod_lt.
  - rewrite put_padded_length; [lia|].
    apply digits_of_microseconds. by apply N.mod_lt.
Qed.

(** Time stamps have a fixed width.  A logger fresh from a constructor
    writes 6 digits after the point, and after [SetTimePrecision] 3 for
    Milliseconds and 6 for Microseconds; whatever the clock shows, the
    fraction is padded with zeros to exactly that many digits, so the
    stamp is the local time, a point and that many digits. *)
Theorem timestamp_fixed_width (w : World) (a : addr) (l : Logger.t)
    (precision : LogTimePrecision.t) :
  loggers w !! a = Some l ->
  (time_inv l = true ->
   String.length (GetTimestamp w l)
   = String.length (local_time w) + 1 + Logger.time_digits l)
  /\ (exists w' l',
        SetTimePrecision w a precision = Returns tt w' /\
        loggers w' !! a = Some l' /\
        Logger.time_digits l' =
          match precision with
          | LogTimePrecision.Milliseconds => 3
          | LogTimePrecision.Microseconds => 6
          end /\
        forall clock : World,
          String.length (GetTimestamp clock l')
          = String.length (local_time clock) + 1 + Logger.time_digits l')
  /\ (forall cls process_name component_name parent_logger output_to_console
             this w' l',
        Logger_init w cls process_name component_name parent_logger
                    output_to_console = Returns this w' ->
        loggers w' !! this = Some l' ->
        Logger.time_digits l' = 6 /\
        forall clock : World,
          String.length (GetTimestamp clock l')
          = String.length (local_time clock) + 1 + 6).
Proof.
  intros Hl. split; [apply timestamp_length|]. split.
  - unfold SetTimePrecision. rewrite Hl. eexists _, _.
    split; [reflexivity|]. rewrite lookup_modify, decide_True, Hl by done.
    split; [reflexivity|].
    destruct precision; (split; [reflexivity|]); intros clock;
      by apply timestamp_length.
  - intros cls pn cn parent otc this w' l' Hinit Hl'.
    unfold Logger_init in Hinit.
    destruct (match parent with Some p => GetLogLevel w p | None => _ end);
      [|done].
    destruct (match parent with Some p => IsColorized w p | None => _ end);
      [|done].
    injection Hinit as <- <-. simpl in Hl'.
    rewrite list_lookup_middle in Hl' by done. injection Hl' as <-.
    split; [reflexivity|]. intros clock. by apply timestamp_length.
Qed.

Lemma timestamp_fixed_width_witness :
  exists w' l',
    SetTimePrecision logger_test 0 LogTimePrecision.Milliseconds
      = Returns tt w' /\
    loggers w' !! 0 = Some l' /\
    GetTimestamp w' l' = "2024-05-17T10:11:12.456" /\
    String.length (GetTimestamp w' l') = 19 + 1 + 3.
Proof.
  with_logger logger_test 0 ltac:(fun l =>
    destruct (proj1 (proj2 (timestamp_fixed_width logger_test 0 l
                              LogTimePrecision.Milliseconds eq_refl)))
      as (w' & l' & Hset & Hl' & Hdigits & Hwidth)).
  exists w', l'. split; [exact Hset|]. split; [exact Hl'|].
  vm_compute in Hset. injection Hset as <-.
  vm_compute in Hl'. injection Hl' as <-. split; reflexivity.
Defined.

(** ** The macros *)

(** [LOGGER_CRITICAL] is never compiled out, whatever [LOGGER_LEVEL] is;
    the macro of another level is compiled in exactly when the number of
    its level is at most [LOGGER_LEVEL]; and a macro that is compiled in
    writes to the stream of its own level and flushes it. *)
Theorem LOGGER_macro_enabled (LOGGER_LEVEL : Z) (level : LogLevel.t) :
  LOGGER_macro LOGGER_LEVEL level =
  if (LogLevel.to_Z level <=? Z.max LOGGER_LEVEL 0)%Z
  then stream_and_flush level
  else no_tokens.
Proof.
  unfold LOGGER_macro, LOGGER_LEVEL_CRITICAL, LOGGER_LEVEL_ERROR,
    LOGGER_LEVEL_WARNING, LOGGER_LEVEL_INFO.
  destruct level; simpl;
    repeat match goal with
           | |- context [(?x <=? ?y)%Z] => destruct (Z.leb_spec x y)
           end; try reflexivity; lia.
Qed.

(** ** The destructor *)

(** The destructor of a node that has a parent releases nothing.  That
    of a root releases what [SetLogFacility(LogFacility::None)] would:
    the same calls reach syslog, the same log file is closed, and no log
    file is open afterwards. *)
Theorem dtor_releases (w : World) (r : addr) (lr : Logger.t) :
  loggers w !! r = Some lr ->
  (Logger.parent_logger lr <> None -> Logger_dtor w r = Returns tt w)
  /\ (Logger.parent_logger lr = None -> file_inv lr = true ->
      exists w1 w2 l1 l2,
        Logger_dtor w r = Returns tt w1 /\
        SetLogFacility w r LogFacility.None "" = Returns tt w2 /\
        loggers w1 !! r = Some l1 /\ loggers w2 !! r = Some l2 /\
        syslog_calls w1 = syslog_calls w2 /\
        files w1 = files w2 /\ clog w1 = clog w2 /\ cerr w1 = cerr w2 /\
        Logger.log_file l1 = Logger.log_file l2 /\
        ofstream.is_open (Logger.log_file l1) = false).
Proof.
  intros Hlr. unfold Logger_dtor, SetLogFacility. rewrite Hlr. split.
  - by destruct (Logger.parent_logger lr).
  - intros -> Hinv.
    pose proof (file_inv_closed lr Hinv) as Hclosed.
    unfold closelog, modify.
    destruct (Logger.log_facility lr) eqn:Hf, (syslog_enabled w); simpl;
      eexists _, _, _, _; (split; [reflexivity|]); (split; [reflexivity|]);
      simpl; rewrite ?list_lookup_alter_eq, ?Hlr; simpl;
      (split; [reflexivity|]); (split; [reflexivity|]);
      rewrite ?Hclosed by done; done.
Qed.

Lemma dtor_releases_witness :
  exists w1 l1,
    Logger_dtor (world_after logger_test
                   (SetLogFacility logger_test 0 LogFacility.File "app.log")) 0
      = Returns tt w1 /\
    loggers w1 !! 0 = Some l1 /\
    ofstream.is_open (Logger.log_file l1) = false.
Proof.
  with_logger (world_after logger_test
                 (SetLogFacility logger_test 0 LogFacility.File "app.log")) 0
    ltac:(fun lr =>
      destruct (proj2 (dtor_releases
                         (world_after logger_test
                            (SetLogFacility logger_test 0 LogFacility.File
                               "app.log")) 0 lr eq_refl) eq_refl eq_refl)
        as (w1 & w2 & l1 & l2 & Hd & _ & Hl1 & _ & _ & _ & _ & _ & _ & Hclosed)).
  by exists w1, l1.
Defined.

(** ** The log file and syslog *)





(** The syslog priority follows the severity: of two levels, the more
    important one is sent with the smaller, more urgent priority. *)
Theorem syslog_priority_order (a b : LogLevel.t) :
  (LogLevel.to_Z a < LogLevel.to_Z b)%Z <->
  (MapLogLevelToSysLog a < MapLogLevelToSysLog b)%Z.
Proof. destruct a, b; unfold MapLogLevelToSysLog; simpl; split; done. Qed.
